(** * nextbox-daemon: the job scheduling core ([nextbox_daemon/jobs.py])

    A shallow embedding of [BaseJob], [BackupRestoreJob] and [JobManager],
    and the properties of the scheduling core that the specification states.

    Conventions of the embedding
    - A [datetime] is a number of microseconds on the wall clock, a
      [timedelta] is Python's normalised triple (days, seconds,
      microseconds).  Every call of [dt.now()] is an explicit argument:
      the clock is an input of the program.
    - Python objects mutated in place (a job, the status board, the logger)
      live in an explicit state that every method threads; a raised
      exception keeps the mutations done before it, as in Python.
    - Methods are programs of the monad [Eff S], state [S] plus exceptions.
    - [PyException] stands for the instances of Python's [Exception] class,
      which is what [except Exception] catches.
    - The collaborators outside the core (LED shield, services, apt,
      Nextcloud) are not part of the state; a job class is any [_run]
      acting on the job, the status board and the log. *)

From stdpp Require Import gmap strings list fin_maps.
From Stdlib Require Import ZArith Lia.

Open Scope string_scope.
Open Scope Z_scope.

(** ** Python values, dictionaries, exceptions *)

Inductive Value : Type :=
  | VNone
  | VStr (s : string)
  | VInt (n : Z).

#[global] Instance Value_eq_dec : EqDecision Value.
Proof. solve_decision. Defined.

(** A dict with string keys whose order is not observed (keyword
    arguments, a board record). *)
Abbreviation PyDict := (gmap string Value).

Inductive PyException : Type :=
  | NotImplementedError
  | StopIteration
  | KeyError (key : string)
  | TypeError (what : string)
  | OSError (what : string).

Inductive LogLevel : Type := DEBUG | INFO | WARNING | ERROR.

Record LogRecord : Type := mkLog {
  lvl : LogLevel;
  msg : string;
  exc_info : option PyException
}.

(** ** The effect monad: state and exceptions *)

Inductive outcome (A : Type) : Type :=
  | Returned (a : A)
  | Raised (e : PyException).
Arguments Returned {A} a.
Arguments Raised {A} e.

Definition Eff (S A : Type) : Type := S → outcome A * S.

#[global] Instance Eff_ret {S} : MRet (Eff S) :=
  λ A a s, (Returned a, s).

#[global] Instance Eff_bind {S} : MBind (Eff S) :=
  λ A B f m s,
    match m s with
    | (Returned a, s') => f a s'
    | (Raised e, s') => (Raised e, s')
    end.

Definition raise {S A} (e : PyException) : Eff S A := λ s, (Raised e, s).
Definition gets {S A} (f : S → A) : Eff S A := λ s, (Returned (f s), s).
Definition modify {S} (f : S → S) : Eff S unit := λ s, (Returned tt, f s).

(** [try: m except C as e: h e], where [catches] tells the instances
    of the class [C]; any other exception goes on. *)
Definition try_except {S A} (m : Eff S A) (catches : PyException → bool)
    (h : PyException → Eff S A) : Eff S A :=
  λ s,
    match m s with
    | (Returned a, s') => (Returned a, s')
    | (Raised e, s') => if catches e then h e s' else (Raised e, s')
    end.

(** [except Exception]: every [PyException] is an instance. *)
Definition isinstance_Exception (e : PyException) : bool := true.

Definition isinstance_StopIteration (e : PyException) : bool :=
  match e with StopIteration => true | _ => false end.

(** ** Time: [datetime] and [timedelta] *)

Definition datetime : Type := Z.

Record timedelta : Type := mkDelta {
  days : Z;
  seconds : Z;
  microseconds : Z
}.

Definition us_per_second : Z := 1000000.
Definition seconds_per_day : Z := 86400.

(** Python normalises a timedelta so that [0 <= seconds < 86400] and
    [0 <= microseconds < 1000000]; [days] carries the sign. *)
Definition timedelta_of_us (us : Z) : timedelta :=
  {| days := (us / us_per_second) / seconds_per_day;
     seconds := (us / us_per_second) mod seconds_per_day;
     microseconds := us mod us_per_second |}.

(** [a - b] on datetimes *)
Definition dt_sub (a b : datetime) : timedelta := timedelta_of_us (a - b).

Definition total_us (d : timedelta) : Z :=
  (days d * seconds_per_day + seconds d) * us_per_second + microseconds d.

(** ** The status board *)

Record Board : Type := mkBoard {
  topics : gmap string PyDict;
  messages : list string
}.

(** Modelled from the spec: the status board class is not among the
    sources.  [set(topic, record)] replaces the topic's record. *)
Definition board_set (topic : string) (rec : PyDict) (b : Board) : Board :=
  {| topics := <[topic := rec]> (topics b); messages := messages b |}.

(** Modelled from the spec: the status board class is not among the
    sources.  [update(topic, partial)] merges [partial] into the topic's
    record, the fields of [partial] winning, and creates the record when
    the topic has none. *)
Definition board_update (topic : string) (partial : PyDict) (b : Board) : Board :=
  {| topics := <[topic := partial ∪ default ∅ (topics b !! topic)]> (topics b);
     messages := messages b |}.

(** Modelled from the spec: the status board class is not among the
    sources.  [messages.put(text)] appends to the unbounded queue. *)
Definition messages_put (text : string) (b : Board) : Board :=
  {| topics := topics b; messages := messages b ++ [text] |}.

(** The objects shared by the manager and all jobs. *)
Record Env : Type := mkEnv {
  board : Board;
  log : list LogRecord
}.

Definition log_emit (l : LogLevel) (m : string) (e : option PyException) (env : Env) : Env :=
  {| board := board env; log := log env ++ [mkLog l m e] |}.

Definition on_board (f : Board → Board) (env : Env) : Env :=
  {| board := f (board env); log := log env |}.

(** ** Jobs *)

(** One item of a progress sequence: [(state, (who, what), percent)]. *)
Definition ProgressRecord : Type := Value * (Value * Value) * Value.

(** A generator object, by the items it has yet to yield.  It is
    exhausted when none is left; as an object it is always truthy. *)
Definition Iterator : Type := list ProgressRecord.

(** The instance attributes of a job. *)
Record JobState : Type := mkJobState {
  interval : option Z;
  last_run : datetime;
  iterator : option Iterator
}.

(** What a method of a job sees: [self] and the shared objects. *)
Record JobCtx : Type := mkJobCtx {
  self : JobState;
  env : Env
}.

Abbreviation Kwargs := (gmap string Value).
Abbreviation Cfg := (gmap string PyDict).

Definition set_interval (i : option Z) (c : JobCtx) : JobCtx :=
  {| self := {| interval := i; last_run := last_run (self c); iterator := iterator (self c) |};
     env := env c |}.

Definition set_last_run (t : datetime) (c : JobCtx) : JobCtx :=
  {| self := {| interval := interval (self c); last_run := t; iterator := iterator (self c) |};
     env := env c |}.

Definition set_iterator (it : option Iterator) (c : JobCtx) : JobCtx :=
  {| self := {| interval := interval (self c); last_run := last_run (self c); iterator := it |};
     env := env c |}.

Definition on_env (f : Env → Env) (c : JobCtx) : JobCtx :=
  {| self := self c; env := f (env c) |}.

Definition job_log (l : LogLevel) (m : string) : Eff JobCtx unit :=
  modify (on_env (log_emit l m None)).

(** A job class: its [name], the interval its constructor passes to
    [BaseJob.__init__], and its [_run] method. *)
Record JobClass : Type := mkJobClass {
  cls_name : string;
  cls_initial_interval : option Z;
  cls_run : Cfg → Kwargs → Eff JobCtx unit
}.

(** [BaseJob.__init__], at clock reading [now] *)
Definition BaseJob_init (initial_interval : option Z) (now : datetime) : JobState :=
  {| interval := initial_interval; last_run := now; iterator := None |}.

(** [BaseJob.is_due], at clock reading [now] *)
Definition is_due (now : datetime) : Eff JobCtx bool :=
  i ← gets (λ c, interval (self c));
  match i with
  | None => mret false
  | Some n =>
      lr ← gets (λ c, last_run (self c));
      mret (seconds (dt_sub now lr) >? n)
  end.

(** [BaseJob.run], at clock reading [now] *)
Definition run (cls : JobClass) (now : datetime) (cfg : Cfg) (kwargs : Kwargs) : Eff JobCtx unit :=
  job_log DEBUG ("starting worker job: " ++ cls_name cls);;
  modify (set_last_run now);;
  cls_run cls cfg kwargs;;
  job_log DEBUG ("finished worker job: " ++ cls_name cls).

(** [BaseJob._run] *)
Definition BaseJob__run (cfg : Cfg) (kwargs : Kwargs) : Eff JobCtx unit :=
  raise NotImplementedError.

(** [LEDJob._run] *)
Definition LEDJob__run (cfg : Cfg) (kwargs : Kwargs) : Eff JobCtx unit :=
  modify (set_interval None).

(** [LEDJob], with the interval of its constructor *)
Definition LEDJob : JobClass :=
  {| cls_name := "LED"; cls_initial_interval := Some 1; cls_run := LEDJob__run |}.

(** ** [BackupRestoreJob] *)

(** [k in d] *)
Definition has_key (k : string) (d : Kwargs) : bool :=
  match d !! k with Some _ => true | None => false end.

(** [d[k]] *)
Definition getitem {S} (k : string) (d : Kwargs) : Eff S Value :=
  match d !! k with
  | Some v => mret v
  | None => raise (KeyError k)
  end.

(** [d.get(k)] *)
Definition dict_get_default (k : string) (d : Kwargs) : Value :=
  default VNone (d !! k).

(** [not self.iterator]: [None] is falsy, a generator object is truthy. *)
Definition not_iterator (it : option Iterator) : bool :=
  match it with None => true | Some _ => false end.

(** [v in ["backup", "restore"]] *)
Definition in_backup_restore (v : Value) : bool :=
  bool_decide (v = VStr "backup") || bool_decide (v = VStr "restore").

(** [next(self.iterator)]: the generator object is advanced in place. *)
Definition next_iterator : Eff JobCtx ProgressRecord :=
  λ c,
    match iterator (self c) with
    | None => (Raised (TypeError "'NoneType' object is not an iterator"), c)
    | Some [] => (Raised StopIteration, c)
    | Some (r :: rest) => (Returned r, set_iterator (Some rest) c)
    end.

(** The two diagnostic messages of [_run]. *)
Definition msg_missing_args : string :=
  "Requested starting BackupRestore-Job without 'tar_path' and/or 'mode' arg".

Definition msg_bad_mode : string :=
  "'mode' arg needs to be either 'backup' or 'restore'".

(** The dict literal published by a start request. *)
Definition starting_record (tar_path mode : Value) : PyDict :=
  {[ "state" := VStr "starting";
     "percent" := VStr "0";
     "who" := VStr "all";
     "tar_path" := tar_path;
     "what" := (if bool_decide (mode = VStr "backup") then VStr "export" else VStr "import");
     "mode" := mode ]}.

(** The dict literal published for an item of the sequence. *)
Definition progress_record (r : ProgressRecord) : PyDict :=
  let '(state, (who, what), percent) := r in
  {[ "state" := state; "who" := who; "what" := what; "percent" := percent ]}.

Section BackupRestore.

(** [RawBackupRestore.full_export] and [full_import], the provider of
    the progress sequences, held in [self.ctrl]. *)
Variables full_export full_import : Value → Iterator.

(** [BackupRestoreJob._run] *)
Definition BackupRestoreJob__run (cfg : Cfg) (kwargs : Kwargs) : Eff JobCtx unit :=
  it ← gets (λ c, iterator (self c));
  if not_iterator it
     && (negb (has_key "tar_path" kwargs) || negb (has_key "mode" kwargs))
  then
    job_log ERROR msg_missing_args;;
    modify (on_env (on_board (messages_put msg_missing_args)))
  else
  it ← gets (λ c, iterator (self c));
  if not_iterator it && negb (in_backup_restore (dict_get_default "mode" kwargs))
  then
    job_log ERROR msg_bad_mode;;
    modify (on_env (on_board (messages_put msg_bad_mode)))
  else
  it ← gets (λ c, iterator (self c));
  if not_iterator it
  then
    tar_path ← getitem "tar_path" kwargs;
    mode ← getitem "mode" kwargs;
    modify (on_env (on_board (board_update "backup_restore" (starting_record tar_path mode))));;
    mode ← getitem "mode" kwargs;
    (if bool_decide (mode = VStr "backup")
     then tar_path ← getitem "tar_path" kwargs;
          modify (set_iterator (Some (full_export tar_path)))
     else tar_path ← getitem "tar_path" kwargs;
          modify (set_iterator (Some (full_import tar_path))));;
    modify (set_interval (Some 1))
  else
    try_except
      (r ← next_iterator;
       modify (on_env (on_board (board_set "backup_restore" (progress_record r)))))
      isinstance_StopIteration
      (λ _, modify (set_iterator None);;
            modify (set_interval None)).

(** [BackupRestoreJob]; its constructor leaves [self.iterator] at [None] *)
Definition BackupRestoreJob : JobClass :=
  {| cls_name := "BackupRestore";
     cls_initial_interval := None;
     cls_run := BackupRestoreJob__run |}.

End BackupRestore.

(** ** [JobManager] *)

(** A job object: its class and its attributes. *)
Record Job : Type := mkJob {
  job_class : JobClass;
  job_state : JobState
}.

(** [job()]: instantiate a job class at clock reading [now]. *)
Definition new_job (cls : JobClass) (now : datetime) : Job :=
  {| job_class := cls; job_state := BaseJob_init (cls_initial_interval cls) now |}.

(** A Python dict whose order is observed: items in insertion order,
    one per key. *)
Abbreviation odict V := (list (string * V)).

Fixpoint dict_get {V} (k : string) (d : odict V) : option V :=
  match d with
  | [] => None
  | (k', v) :: d' => if decide (k = k') then Some v else dict_get k d'
  end.

Definition dict_contains {V} (k : string) (d : odict V) : bool :=
  match dict_get k d with Some _ => true | None => false end.

(** [d[k] = v]: a present key keeps its place, a new key goes last. *)
Fixpoint dict_set {V} (k : string) (v : V) (d : odict V) : odict V :=
  match d with
  | [] => [(k, v)]
  | (k', v') :: d' =>
      if decide (k = k') then (k, v) :: d' else (k', v') :: dict_set k v d'
  end.

Record JobManager : Type := mkJobManager {
  cfg : Cfg;
  jobs : odict Job
}.

(** What a method of the manager sees: the manager and the shared
    objects ([self.board] is the board of [menv]). *)
Record MgrCtx : Type := mkMgrCtx {
  mgr : JobManager;
  menv : Env
}.

Definition set_jobs (js : odict Job) (σ : MgrCtx) : MgrCtx :=
  {| mgr := {| cfg := cfg (mgr σ); jobs := js |}; menv := menv σ |}.

Definition mgr_log (l : LogLevel) (m : string) (e : option PyException) : Eff MgrCtx unit :=
  modify (λ σ, {| mgr := mgr σ; menv := log_emit l m e (menv σ) |}).

(** [JobManager.__init__] *)
Definition JobManager_init (config : Cfg) : JobManager :=
  {| cfg := config; jobs := [] |}.

(** Call a method of the job object [self.jobs[job_name]]: the method
    runs on the job's attributes and the shared objects, and what it
    did to them stays, also when it raises. *)
Definition call_job {A} (job_name : string) (method : JobClass → Eff JobCtx A) : Eff MgrCtx A :=
  λ σ,
    match dict_get job_name (jobs (mgr σ)) with
    | None => (Raised (KeyError job_name), σ)
    | Some j =>
        let '(r, c) := method (job_class j) {| self := job_state j; env := menv σ |} in
        (r, {| mgr := {| cfg := cfg (mgr σ);
                         jobs := dict_set job_name
                                   {| job_class := job_class j; job_state := self c |}
                                   (jobs (mgr σ)) |};
               menv := env c |})
    end.

(** [JobManager.register_job], the constructor reading the clock at [now] *)
Definition register_job (job : JobClass) (now : datetime) : Eff MgrCtx unit :=
  mgr_log INFO ("registering job " ++ cls_name job) None;;
  js ← gets (λ σ, jobs (mgr σ));
  (if dict_contains (cls_name job) js
   then mgr_log WARNING ("overwriting job (during register) with name: " ++ cls_name job) None
   else mret tt);;
  modify (λ σ, set_jobs (dict_set (cls_name job) (new_job job now) (jobs (mgr σ))) σ).

(** [JobManager.handle_job], the job reading the clock at [now] *)
Definition handle_job (now : datetime) (job_name : string) (job_kwargs : Kwargs) : Eff MgrCtx unit :=
  js ← gets (λ σ, jobs (mgr σ));
  if negb (dict_contains job_name js)
  then mgr_log ERROR ("could not find job with name: " ++ job_name) None
  else
    try_except
      (config ← gets (λ σ, cfg (mgr σ));
       call_job job_name (λ cls, run cls now config job_kwargs))
      isinstance_Exception
      (λ e, mgr_log ERROR ("failed running job: " ++ job_name) None;;
            mgr_log ERROR "EXC" (Some e)).

(** The loop of [get_recurring_job] over the names of [self.jobs.items()];
    the [k]-th call of [is_due] reads the clock at [clock k]. *)
Fixpoint scan_jobs (clock : nat → datetime) (k : nat) (names : list string)
    : Eff MgrCtx (option string) :=
  match names with
  | [] => mret None
  | name :: rest =>
      due ← call_job name (λ _, is_due (clock k));
      if (due : bool) then mret (Some name) else scan_jobs clock (S k) rest
  end.

(** [JobManager.get_recurring_job] *)
Definition get_recurring_job (clock : nat → datetime) : Eff MgrCtx (option string) :=
  js ← gets (λ σ, jobs (mgr σ));
  scan_jobs clock 0%nat (map fst js).

(** * Definitions used by the statements *)

(** ** Values and states the statements name *)

(** The value [is_due] returns, as a function of the job's attributes. *)
Definition due_at (now : datetime) (s : JobState) : bool :=
  match interval s with
  | None => false
  | Some n => seconds (dt_sub now (last_run s)) >? n
  end.

(** The state in which [run] invokes the body: the start is logged and
    [last_run] is the clock reading. *)
Definition at_body (cls : JobClass) (now : datetime) (c : JobCtx) : JobCtx :=
  set_last_run now
    (on_env (log_emit DEBUG ("starting worker job: " ++ cls_name cls) None) c).

(** The body of the class never assigns [self.last_run]. *)
Definition keeps_last_run (cls : JobClass) : Prop :=
  ∀ config kwargs c,
    last_run (self (snd (cls_run cls config kwargs c))) = last_run (self c).

(** The state after a rejected start request: the message is logged
    and put on the board's queue. *)
Definition rejected (text : string) (c : JobCtx) : JobCtx :=
  on_env (on_board (messages_put text)) (on_env (log_emit ERROR text None) c).

(** The state after an accepted start request. *)
Definition started (full_export full_import : Value → Iterator) (p m : Value) (c : JobCtx)
    : JobCtx :=
  set_interval (Some 1)
    (set_iterator
       (Some (if bool_decide (m = VStr "backup") then full_export p else full_import p))
       (on_env (on_board (board_update "backup_restore" (starting_record p m))) c)).

(** The six fields of the record a start request publishes. *)
Definition starting_fields : list string :=
  ["state"; "percent"; "who"; "tar_path"; "what"; "mode"].

(** The state after [run] of the job [j] stored under [name] returned or
    raised: what [run] did to the job and to the shared objects, and the
    two error records when it raised. *)
Definition dispatched (now : datetime) (name : string) (kwargs : Kwargs) (j : Job)
    (σ : MgrCtx) : MgrCtx :=
  let rc := run (job_class j) now (cfg (mgr σ)) kwargs
              {| self := job_state j; env := menv σ |} in
  {| mgr := {| cfg := cfg (mgr σ);
               jobs := dict_set name
                         {| job_class := job_class j; job_state := self (snd rc) |}
                         (jobs (mgr σ)) |};
     menv := match fst rc with
             | Returned _ => env (snd rc)
             | Raised e =>
                 log_emit ERROR "EXC" (Some e)
                   (log_emit ERROR ("failed running job: " ++ name) None (env (snd rc)))
             end |}.

(** A sequence of dispatches, each with its clock reading. *)
Fixpoint handle_jobs (ds : list (datetime * string * Kwargs)) : Eff MgrCtx unit :=
  match ds with
  | [] => mret tt
  | (now, name, kwargs) :: rest => handle_job now name kwargs;; handle_jobs rest
  end.

(** The records [register_job] logs. *)
Definition register_log (job : JobClass) (σ : MgrCtx) : list LogRecord :=
  mkLog INFO ("registering job " ++ cls_name job) None
  :: (if dict_contains (cls_name job) (jobs (mgr σ))
      then [mkLog WARNING ("overwriting job (during register) with name: " ++ cls_name job) None]
      else []).

(** The state after [register_job]. *)
Definition registered (job : JobClass) (now : datetime) (σ : MgrCtx) : MgrCtx :=
  {| mgr := {| cfg := cfg (mgr σ);
               jobs := dict_set (cls_name job) (new_job job now) (jobs (mgr σ)) |};
     menv := {| board := board (menv σ);
                log := log (menv σ) ++ register_log job σ |} |}.

(** The specification's [next_due]: the name of the first job, in the
    order of the registry, that is due when asked, or none; the [k]-th
    job is asked at [clock k]. *)
Fixpoint first_due (clock : nat → datetime) (k : nat) (items : odict Job) : option string :=
  match items with
  | [] => None
  | (name, j) :: rest =>
      if due_at (clock k) (job_state j) then Some name else first_due clock (S k) rest
  end.

(** The states a manager goes through: created empty, then any calls of
    its three methods. *)
Inductive reachable : MgrCtx → Prop :=
  | reach_init (config : Cfg) (e : Env) :
      reachable {| mgr := JobManager_init config; menv := e |}
  | reach_register (σ : MgrCtx) (job : JobClass) (now : datetime) :
      reachable σ → reachable (snd (register_job job now σ))
  | reach_handle (σ : MgrCtx) (now : datetime) (name : string) (kwargs : Kwargs) :
      reachable σ → reachable (snd (handle_job now name kwargs σ))
  | reach_poll (σ : MgrCtx) (clock : nat → datetime) :
      reachable σ → reachable (snd (get_recurring_job clock σ)).

(** ** Concrete jobs, arguments and managers of the examples *)

(** An empty board and an empty log. *)
Definition idle_env : Env := {| board := {| topics := ∅; messages := [] |}; log := [] |}.

(** A subclass that does not override [_run]; its name is [None]. *)
Definition AbstractJob (initial_interval : option Z) : JobClass :=
  {| cls_name := "None"; cls_initial_interval := initial_interval; cls_run := BaseJob__run |}.

(** A second class under the name "LED". *)
Definition SecondLEDJob : JobClass :=
  {| cls_name := "LED"; cls_initial_interval := Some 5; cls_run := BaseJob__run |}.

(** A provider whose sequence has no record. *)
Definition no_records : Value → Iterator := λ _, [].

(** The three records of the specification's example. *)
Definition three_records : Iterator :=
  [ (VStr "running", (VStr "a", VStr "files"), VInt 10);
    (VStr "running", (VStr "b", VStr "files"), VInt 60);
    (VStr "done", (VStr "", VStr ""), VInt 100) ].

(** A backup job just created, at clock reading 0. *)
Definition idle_job : JobCtx :=
  {| self := BaseJob_init None 0; env := idle_env |}.

(** A backup in progress with the three records still to come. *)
Definition running_job : JobCtx :=
  {| self := {| interval := Some 1; last_run := 0; iterator := Some three_records |};
     env := idle_env |}.

Definition backup_kwargs : Kwargs :=
  {[ "tar_path" := VStr "/tmp/x.tar"; "mode" := VStr "backup" ]}.

Definition delete_kwargs : Kwargs :=
  {[ "tar_path" := VStr "/tmp/x.tar"; "mode" := VStr "delete" ]}.

(** A manager with the LED job registered at clock reading 0. *)
Definition led_manager : MgrCtx :=
  snd (register_job LEDJob 0 {| mgr := JobManager_init ∅; menv := idle_env |}).

(** A manager with the backup job, whose export yields the three records. *)
Definition backup_manager : MgrCtx :=
  snd (register_job (BackupRestoreJob (λ _, three_records) no_records) 0
         {| mgr := JobManager_init ∅; menv := idle_env |}).

(** * The rest of the scheduling core: definitions *)

From stdpp Require pretty.

(** ** Sequences of calls on one job *)

(** The job after a sequence of [run] calls, each with its clock
    reading, configuration and arguments; a call that raises leaves the
    job as the raise found it, and the next call goes on from there. *)
Definition after_runs (cls : JobClass) (calls : list (datetime * Cfg * Kwargs))
    (c : JobCtx) : JobCtx :=
  fold_left (λ c '(now, config, kwargs), snd (run cls now config kwargs c)) calls c.

(** The state of the backup job between calls: idle with no interval,
    or an operation in progress and polled every second. *)
Definition idle_or_polled (s : JobState) : Prop :=
  (iterator s = None ∧ interval s = None)
  ∨ (is_Some (iterator s) ∧ interval s = Some 1).

(** [n] further calls of [BackupRestoreJob._run]. *)
Fixpoint polls (full_export full_import : Value → Iterator) (config : Cfg) (kwargs : Kwargs)
    (n : nat) (c : JobCtx) : JobCtx :=
  match n with
  | O => c
  | S n' =>
      polls full_export full_import config kwargs n'
        (snd (BackupRestoreJob__run full_export full_import config kwargs c))
  end.

(** The record of the topic "backup_restore". *)
Definition backup_topic (c : JobCtx) : option PyDict :=
  topics (board (env c)) !! "backup_restore".

(** A class whose body leaves the job without an interval, however it
    ends. *)
Definition one_shot (cls : JobClass) : Prop :=
  ∀ config kwargs c, interval (self (snd (cls_run cls config kwargs c))) = None.

(** The job under [name] is of a one-shot class and has no interval. *)
Definition spent (name : string) (σ : MgrCtx) : Prop :=
  ∃ j, dict_get name (jobs (mgr σ)) = Some j
       ∧ one_shot (job_class j)
       ∧ interval (job_state j) = None.

(** * The other jobs of [jobs.py] *)

(** ** Python strings

    A Python [str] is a Rocq string, one character a code point below
    256. *)

(** [str(v)] *)
Definition py_str (v : Value) : string :=
  match v with
  | VNone => "None"
  | VStr s => s
  | VInt n => pretty.pretty n
  end.

(** The white space of [str.strip()] among the code points below 256:
    tab to carriage return, the four separators 28 to 31, the space,
    next line (133) and the no-break space (160). *)
Definition is_space (a : Ascii.ascii) : bool :=
  let n := Ascii.nat_of_ascii a in
  ((9 <=? n) && (n <=? 13) || (28 <=? n) && (n <=? 32)
   || (n =? 133) || (n =? 160))%nat.

(** [s.lstrip()] *)
Fixpoint py_lstrip (s : string) : string :=
  match s with
  | "" => ""
  | String a s' => if is_space a then py_lstrip s' else s
  end.

(** [s.rstrip()] *)
Fixpoint py_rstrip (s : string) : string :=
  match s with
  | "" => ""
  | String a s' =>
      match py_rstrip s' with
      | "" => if is_space a then "" else String a ""
      | r => String a r
      end
  end.

(** [s.strip()] *)
Definition py_strip (s : string) : string := py_rstrip (py_lstrip s).

(** Every character of [s] is white space. *)
Fixpoint all_space (s : string) : bool :=
  match s with
  | "" => true
  | String a s' => is_space a && all_space s'
  end.

(** [s] is empty or ends with a character that is not white space. *)
Definition ends_without_space (s : string) : Prop :=
  s = "" ∨ ∃ pre a, s = pre +:+ String a "" ∧ is_space a = false.

(** [s] is empty or starts with a character that is not white space. *)
Definition starts_without_space (s : string) : Prop :=
  match s with
  | "" => True
  | String a _ => is_space a = false
  end.

(** [cfg[k]] on the configuration *)
Definition getitem_cfg {S} (k : string) (d : Cfg) : Eff S PyDict :=
  match d !! k with
  | Some v => mret v
  | None => raise (KeyError k)
  end.

(** The result of a call into a collaborator outside the core, which
    touches none of the objects of the state. *)
Definition external {S A} (r : outcome A) : Eff S A := λ s, (r, s).

(** ** [GenericStatusUpdateJob] *)

Section GenericStatusUpdate.

(** [apt.cache.Cache()[pkg].installed.version]: the version installed,
    or what the lookup raises. *)
Variable apt_installed_version : Value → outcome Value.

(** [GenericStatusUpdateJob._run] *)
Definition GenericStatusUpdateJob__run (config : Cfg) (kwargs : Kwargs) : Eff JobCtx unit :=
  modify (set_interval None);;
  section ← getitem_cfg "config" config;
  pkg ← getitem "debian_package" section;
  found ← try_except
    (version ← external (apt_installed_version pkg);
     mret (Some version))
    isinstance_Exception
    (λ e, modify (on_env (log_emit ERROR ("failed getting pkg-info for: " ++ py_str pkg)
                            (Some e)));;
          mret None);
  match found with
  | None => mret tt
  | Some version =>
      modify (on_env (on_board (board_set "pkginfo"
                                  {[ "version" := version; "pkg" := pkg ]})))
  end.

(** [GenericStatusUpdateJob], with the interval of its constructor *)
Definition GenericStatusUpdateJob : JobClass :=
  {| cls_name := "GenericStatusUpdate";
     cls_initial_interval := Some 15;
     cls_run := GenericStatusUpdateJob__run |}.

End GenericStatusUpdate.

(** ** [HardwareStatusUpdateJob] *)

Definition temp_path : string := "/sys/class/hwmon/hwmon0/temp1_input".

Section HardwareStatusUpdate.

(** [Path(p).read_text()]: the text of the file, or what reading raises. *)
Variable read_text : string → outcome string.

(** [HardwareStatusUpdateJob._run] *)
Definition HardwareStatusUpdateJob__run (config : Cfg) (kwargs : Kwargs) : Eff JobCtx unit :=
  text ← external (read_text temp_path);
  let temp := py_strip text in
  modify (on_env (on_board (board_set "hwinfo" {[ "temp" := VStr temp ]}))).

(** [HardwareStatusUpdateJob], with the interval of its constructor *)
Definition HardwareStatusUpdateJob : JobClass :=
  {| cls_name := "HardwareStatusUpdate";
     cls_initial_interval := Some 7200;
     cls_run := HardwareStatusUpdateJob__run |}.

End HardwareStatusUpdate.

(** * [nextcloud.py] and the jobs that use it *)

(** ** More of Python's strings *)

(** [s.startswith(prefix)] *)
Fixpoint starts_with (prefix s : string) : bool :=
  match prefix, s with
  | "", _ => true
  | String a prefix', String b s' => bool_decide (a = b) && starts_with prefix' s'
  | String _ _, "" => false
  end.

(** [needle in s] on strings *)
Fixpoint str_contains (needle s : string) : bool :=
  starts_with needle s
  || match s with
     | "" => false
     | String _ s' => str_contains needle s'
     end.

(** [s.split(sep)] for a separator of one character: never empty. *)
Fixpoint split_on (sep : Ascii.ascii) (s : string) : list string :=
  match s with
  | "" => [""]
  | String a s' =>
      if bool_decide (a = sep) then "" :: split_on sep s'
      else match split_on sep s' with
           | [] => [String a ""]
           | part :: parts => String a part :: parts
           end
  end.

(** The characters ".", ":" and " " *)
Definition chr_dot : Ascii.ascii := Ascii.ascii_of_nat 46.
Definition chr_colon : Ascii.ascii := Ascii.ascii_of_nat 58.
Definition chr_space : Ascii.ascii := Ascii.ascii_of_nat 32.

(** The character [a] occurs in [s]. *)
Fixpoint has_char (a : Ascii.ascii) (s : string) : bool :=
  match s with
  | "" => false
  | String b s' => bool_decide (a = b) || has_char a s'
  end.

(** The truth value of a Python value. *)
Definition py_truthy (v : Value) : bool :=
  match v with
  | VNone => false
  | VStr s => negb (bool_decide (s = ""))
  | VInt n => negb (n =? 0)
  end.

(** ** Exceptions and effects *)

(** The exceptions of this part of the code: those of the core, the
    module's own [NextcloudError], and [IndexError]. *)
Inductive Exn : Type :=
  | PyExc (e : PyException)
  | NextcloudError (m : string)
  | IndexError (m : string).

Inductive result (A : Type) : Type :=
  | Ok (a : A)
  | Err (e : Exn).
Arguments Ok {A} a.
Arguments Err {A} e.

Definition EffX (S A : Type) : Type := S → result A * S.

#[global] Instance EffX_ret {S} : MRet (EffX S) :=
  λ A a s, (Ok a, s).

#[global] Instance EffX_bind {S} : MBind (EffX S) :=
  λ A B f m s,
    match m s with
    | (Ok a, s') => f a s'
    | (Err e, s') => (Err e, s')
    end.

Definition raiseX {S A} (e : Exn) : EffX S A := λ s, (Err e, s).
Definition getsX {S A} (f : S → A) : EffX S A := λ s, (Ok (f s), s).
Definition modifyX {S} (f : S → S) : EffX S unit := λ s, (Ok tt, f s).

(** [try: m except C: h], where [catches] tells the instances of [C]. *)
Definition try_exceptX {S A} (m : EffX S A) (catches : Exn → bool) (h : Exn → EffX S A)
    : EffX S A :=
  λ s,
    match m s with
    | (Ok a, s') => (Ok a, s')
    | (Err e, s') => if catches e then h e s' else (Err e, s')
    end.

Definition isinstance_NextcloudError (e : Exn) : bool :=
  match e with NextcloudError _ => true | _ => false end.

(** ** The [occ] command line *)

(** An argument of a call: one value, or a list of values. *)
Inductive PyData : Type :=
  | Scalar (v : Value)
  | Seq (items : list Value).

(** A string as an argument *)
Definition arg (s : string) : PyData := Scalar (VStr s).

(** The tuple handed to [CommandRunner] *)
Abbreviation Command := (list PyData).

(** What this part of the code acts on: a job with the shared objects,
    and the commands run so far, oldest first. *)
Record World : Type := mkWorld {
  w_ctx : JobCtx;
  w_occ : list Command
}.

Definition on_ctx (f : JobCtx → JobCtx) (w : World) : World :=
  {| w_ctx := f (w_ctx w); w_occ := w_occ w |}.

Definition w_log (l : LogLevel) (m : string) : EffX World unit :=
  modifyX (on_ctx (on_env (log_emit l m None))).

(** [Nextcloud.occ_cmd] *)
Definition occ_cmd : Command :=
  map arg ["docker"; "exec"; "-u"; "www-data"; "nextbox-compose_app_1";
           "/var/www/html/occ"; "-n"; "--ansi"; "--no-warnings"].

Definition config_value_keys : list string :=
  ["overwritehost"; "overwriteprotocol"; "overwritewebroot"; "overwritecondaddr"].

Definition config_list_keys : list string := ["trusted_domains"; "trusted_proxies"].

Definition can_install_path : string := "/srv/nextcloud/config/CAN_INSTALL".

Definition msg_occ_failed : string := "failed to execute nextcloud:occ command".

(** [for x in data]: the items of a list, the characters of a string;
    other values are not iterable. *)
Definition py_iter {S} (data : PyData) : EffX S (list Value) :=
  match data with
  | Seq items => mret items
  | Scalar (VStr s) => mret (map (λ a, VStr (String a "")) (String.list_ascii_of_string s))
  | Scalar (VInt _) => raiseX (PyExc (TypeError "'int' object is not iterable"))
  | Scalar VNone => raiseX (PyExc (TypeError "'NoneType' object is not iterable"))
  end.

(** [ret &= out] on two lists: lists have no [&]. *)
Definition list_iand {S} (ret out : list string) : EffX S (list string) :=
  raiseX (PyExc (TypeError "unsupported operand type(s) for &=: 'list' and 'list'")).

(** [xs[:-2]] *)
Definition drop_last_two {A} (xs : list A) : list A := take (length xs - 2) xs.

Section Nextcloud.

(** [CommandRunner(cmd, block=True)], which is not among the sources:
    the return code and the output lines of the command, which may
    depend on the commands run before it. *)
Variable runner : list Command → Command → Z * list string.

(** [CommandRunner.log_output]: the records it writes to the log. *)
Variable cr_log_output : Z → list string → list LogRecord.

(** [Path(p).exists()] *)
Variable path_exists : string → bool.

(** [Nextcloud.is_installed] *)
Definition is_installed : EffX World bool :=
  mret (negb (path_exists can_install_path)).

(** [Nextcloud.run_cmd] *)
Definition run_cmd (args : Command) : EffX World (list string) :=
  λ w,
    let cmd := (occ_cmd ++ args)%list in
    let '(returncode, output) := runner (w_occ w) cmd in
    let w' := {| w_ctx := w_ctx w; w_occ := w_occ w ++ [cmd] |} in
    if negb (returncode =? 0)
    then (Err (NextcloudError msg_occ_failed),
          on_ctx (on_env (λ e, {| board := board e;
                                  log := log e ++ cr_log_output returncode output |})) w')
    else (Ok (drop_last_two output), w').

(** [Nextcloud.get_config] *)
Definition get_config (key : string) : EffX World (list string) :=
  run_cmd [arg "config:system:get"; arg key].

(** The loop of [set_config] over [enumerate(data)], from index [idx] on *)
Fixpoint set_config_items (key : string) (idx : nat) (items : list Value) : EffX World unit :=
  match items with
  | [] => mret tt
  | item :: rest =>
      run_cmd [arg "config:system:set"; arg key; arg (pretty.pretty idx); arg "--value";
               Scalar item];;
      set_config_items key (S idx) rest
  end.

(** [Nextcloud.set_config] *)
Definition set_config (key : string) (data : PyData) (idx : option Z) : EffX World unit :=
  if bool_decide (key ∈ config_list_keys) then
    match idx with
    | Some i =>
        run_cmd [arg "config:system:set"; arg key; arg (pretty.pretty i); arg "--value"; data];;
        mret tt
    | None =>
        items ← py_iter data;
        set_config_items key 0 items
    end
  else if bool_decide (key ∈ config_value_keys) then
    run_cmd [arg "config:system:set"; arg key; arg "--type"; arg "string"; arg "--value"; data];;
    mret tt
  else raiseX (NextcloudError ("unknown key: " ++ key)).

(** [Nextcloud.delete_config] *)
Definition delete_config (key : string) : EffX World unit :=
  run_cmd [arg "config:system:delete"; arg key];;
  mret tt.

(** [Nextcloud.set_maintenance_on] *)
Definition set_maintenance_on : EffX World (list string) :=
  run_cmd [arg "maintenance:mode"; arg "--on"].

(** [Nextcloud.set_maintenance_off] *)
Definition set_maintenance_off : EffX World (list string) :=
  run_cmd [arg "maintenance:mode"; arg "--off"].

(** [Nextcloud.soft_reset] *)
Definition soft_reset : EffX World (list string) :=
  ret ← set_maintenance_off;
  out ← run_cmd [arg "app:disable"; arg "mail"];
  ret ← list_iand ret out;
  mret ret.

(** [Nextcloud.get_version]: the parts of the version, or [None] for
    the [False] of no version line. *)
Definition get_version : EffX World (option (list string)) :=
  output ← run_cmd [arg "status"];
  match List.find (str_contains "- version:") output with
  | Some line => mret (Some (split_on chr_dot (py_strip (List.last (split_on chr_colon line) ""))))
  | None => mret None
  end.

(** [Nextcloud.enable_nextbox_app] *)
Definition enable_nextbox_app : EffX World bool :=
  out ← run_cmd [arg "app:enable"; arg "nextbox"];
  let out := String.concat " " out in
  mret (str_contains "already" out).

End Nextcloud.

(** The command [set_config] runs for the item at index [idx] of a list
    key. *)
Definition set_item_cmd (key : string) (idx : nat) (item : Value) : Command :=
  (occ_cmd ++ [arg "config:system:set"; arg key; arg (pretty.pretty idx); arg "--value";
               Scalar item])%list.

(** ** [EnableNextBoxAppJob] and [TrustedDomainsJob] *)

(** [TrustedDomainsJob.static_entries] *)
Definition static_entries : list string :=
  ["192.168.*.*"; "10.*.*.*"; "172.16.*.*"; "172.18.*.*"; "nextbox.local"].

(** [v in l] for a list of strings: only a string equals a string. *)
Definition value_in (v : Value) (l : list string) : bool :=
  match v with
  | VStr s => bool_decide (s ∈ l)
  | _ => false
  end.

(** [d[k]] and [cfg[k]] in this part of the code *)
Definition getitemX {S} (k : string) (d : PyDict) : EffX S Value :=
  match d !! k with
  | Some v => mret v
  | None => raiseX (PyExc (KeyError k))
  end.

Definition getitem_cfgX {S} (k : string) (d : Cfg) : EffX S PyDict :=
  match d !! k with
  | Some v => mret v
  | None => raiseX (PyExc (KeyError k))
  end.

(** [xs[0]] *)
Definition first_item {S A} (xs : list A) : EffX S A :=
  match xs with
  | [] => raiseX (IndexError "list index out of range")
  | x :: _ => mret x
  end.

Section NextcloudJobs.

Variable runner : list Command → Command → Z * list string.
Variable cr_log_output : Z → list string → list LogRecord.
Variable path_exists : string → bool.

(** [EnableNextBoxAppJob._run] *)
Definition EnableNextBoxAppJob__run (config : Cfg) (kwargs : Kwargs) : EffX World unit :=
  installed ← is_installed path_exists;
  if negb installed
  then w_log DEBUG "cannot enable nextbox-app - uninitialized nextcloud"
  else
    try_exceptX
      (enabled ← enable_nextbox_app runner cr_log_output;
       if enabled : bool
       then modifyX (on_ctx (set_interval (Some 3600)));;
            w_log INFO "enabled nextcloud nextbox-app"
       else mret tt)
      isinstance_NextcloudError
      (λ _, mret tt).

(** The second half of [TrustedDomainsJob._run], from the line
    [default_entry = trusted_domains[0]] on. *)
Definition TrustedDomainsJob__write (config : Cfg) (trusted_domains : list string)
    : EffX World (option bool) :=
  default_entry ← first_item trusted_domains;
  let entries := (VStr default_entry :: map VStr static_entries) in
  section ← getitem_cfgX "config" config;
  entries ← (if py_truthy (dict_get_default "domain" section)
             then section ← getitem_cfgX "config" config;
                  domain ← getitemX "domain" section;
                  mret (entries ++ [domain])%list
             else mret entries);
  section ← getitem_cfgX "config" config;
  entries ← (if py_truthy (dict_get_default "proxy_active" section)
                && py_truthy (dict_get_default "proxy_domain" section)
             then section ← getitem_cfgX "config" config;
                  proxy_domain ← getitemX "proxy_domain" section;
                  mret (entries ++ [proxy_domain])%list
             else mret entries);
  (if existsb (λ entry, negb (value_in entry trusted_domains)) entries
   then try_exceptX
          (set_config runner cr_log_output "trusted_domains" (Seq entries) None)
          isinstance_NextcloudError
          (λ _, w_log WARNING "failed to write all trusted_domains";;
                modifyX (on_ctx (set_interval (Some 15))))
   else mret tt);;
  mret None.

(** [TrustedDomainsJob._run]; it returns [False] (here [Some false]) or
    nothing.  A Python [bool] in the configuration is the integer it
    is. *)
Definition TrustedDomainsJob__run (config : Cfg) (kwargs : Kwargs)
    : EffX World (option bool) :=
  modifyX (on_ctx (set_interval (Some 900)));;
  installed ← is_installed path_exists;
  if negb installed
  then
    w_log DEBUG "cannot set trusted_domains - uninitialized nextcloud";;
    modifyX (on_ctx (set_interval (Some 15)));;
    mret (Some false)
  else
  got ← try_exceptX
    (trusted_domains ← get_config runner cr_log_output "trusted_domains";
     mret (Some trusted_domains))
    isinstance_NextcloudError
    (λ _, w_log WARNING "cannot get trusted_domains from nextcloud";;
          modifyX (on_ctx (set_interval (Some 15)));;
          mret None);
  match got with
  | None => mret (Some false)
  | Some trusted_domains => TrustedDomainsJob__write config trusted_domains
  end.

End NextcloudJobs.

(** The commands [set_config] runs for the items of a list key, the
    first of them at index [idx]. *)
Fixpoint set_item_cmds (key : string) (idx : nat) (items : list Value) : list Command :=
  match items with
  | [] => []
  | item :: rest => set_item_cmd key idx item :: set_item_cmds key (S idx) rest
  end.

(** The state after a command: it is the last of the commands run. *)
Definition ran (cmd : Command) (w : World) : World :=
  {| w_ctx := w_ctx w; w_occ := w_occ w ++ [cmd] |}.

(** The state after a failed command: what [log_output] wrote is in
    the log. *)
Definition failed (cr_log_output : Z → list string → list LogRecord) (returncode : Z) (output : list string) (cmd : Command) (w : World)
    : World :=
  on_ctx (on_env (λ e, {| board := board e;
                          log := log e ++ cr_log_output returncode output |}))
    (ran cmd w).

(** The entries [TrustedDomainsJob._run] wants trusted: the first
    domain trusted now, the static entries, the configured domain if
    there is one, and the proxy domain if the proxy is active and has
    one. *)
Definition wanted_entries (default_entry : string) (section : PyDict) : list Value :=
  (VStr default_entry :: map VStr static_entries
   ++ (if py_truthy (dict_get_default "domain" section)
       then [dict_get_default "domain" section] else [])
   ++ (if py_truthy (dict_get_default "proxy_active" section)
          && py_truthy (dict_get_default "proxy_domain" section)
       then [dict_get_default "proxy_domain" section] else []))%list.

(** The command of [get_config("trusted_domains")] *)
Definition get_trusted_cmd : Command :=
  (occ_cmd ++ [arg "config:system:get"; arg "trusted_domains"])%list.

(** The command of [enable_nextbox_app] *)
Definition enable_cmd : Command :=
  (occ_cmd ++ [arg "app:enable"; arg "nextbox"])%list.

(** ** Command runners and worlds of the examples *)

(** A runner whose commands all succeed with the same output. *)
Definition occ_prints (output : list string) : list Command → Command → Z * list string :=
  λ _ _, (0, output).

(** A runner whose first [n] commands succeed without output and whose
    later commands fail. *)
Definition occ_fails_after (n : nat) : list Command → Command → Z * list string :=
  λ history _, if (length history <? n)%nat then (0, []) else (1, ["failed"]).

(** A runner whose first command prints [output] and whose later
    commands succeed without output. *)
Definition occ_prints_first (output : list string) : list Command → Command → Z * list string :=
  λ history _, match history with [] => (0, output) | _ => (0, []) end.

(** A [log_output] that writes nothing. *)
Definition quiet : Z → list string → list LogRecord := λ _ _, [].

(** A job created at clock reading 0 with the given interval, an empty
    board and log, and no command run yet. *)
Definition new_world (initial_interval : option Z) : World :=
  {| w_ctx := {| self := BaseJob_init initial_interval 0; env := idle_env |}; w_occ := [] |}.

(** What [occ status] prints, with two closing lines. *)
Definition status_output : list string :=
  ["  - installed: true"; "  - version: 21.0.2.1"; "  - versionstring: 21.0.2";
   "  - edition: "; ""; ""].

(** A configuration with a domain and no proxy. *)
Definition domain_config : Cfg :=
  {[ "config" := {[ "domain" := VStr "box.example.org" ]} ]}.

(** * [SelfUpdateJob] *)

(** What the self-update job acts on: the job with the shared objects,
    the states the LED was set to and the services started, oldest
    first. *)
Record Sys : Type := mkSys {
  s_ctx : JobCtx;
  s_led : list string;
  s_started : list string
}.

Definition on_sctx (f : JobCtx → JobCtx) (s : Sys) : Sys :=
  {| s_ctx := f (s_ctx s); s_led := s_led s; s_started := s_started s |}.

Definition sys_log (l : LogLevel) (m : string) : Eff Sys unit :=
  modify (on_sctx (on_env (log_emit l m None))).

(** [shield.set_led_state(state)] *)
Definition set_led_state (state : string) : Eff Sys unit :=
  modify (λ s, {| s_ctx := s_ctx s; s_led := s_led s ++ [state]; s_started := s_started s |}).

(** [Services().start(name)] *)
Definition services_start (name : string) : Eff Sys unit :=
  modify (λ s, {| s_ctx := s_ctx s; s_led := s_led s; s_started := s_started s ++ [name] |}).

(** A package of the apt cache: [is_installed] and [is_upgradable]. *)
Record Package : Type := mkPackage {
  pkg_is_installed : bool;
  pkg_is_upgradable : bool
}.

Section SelfUpdate.

(** [cache = apt.cache.Cache(); cache.update(); cache.open()]: done, or
    what it raises. *)
Variable apt_update : outcome unit.

(** [cache[pkg]]: the package, or none for a [KeyError]. *)
Variable apt_cache : Value → option Package.

(** [SelfUpdateJob._run] *)
Definition SelfUpdateJob__run (config : Cfg) (kwargs : Kwargs) : Eff Sys unit :=
  modify (on_sctx (set_interval None));;
  set_led_state "updating";;
  sys_log INFO "running 'apt-get update'";;
  external apt_update;;
  section ← getitem_cfg "config" config;
  pkg ← getitem "debian_package" section;
  found ← match apt_cache pkg with
           | Some pkg_obj => mret (Some (pkg, pkg_obj))
           | None =>
               sys_log ERROR ("self-update failed: designated package: " ++ py_str pkg
                              ++ " not found!");;
               sys_log ERROR "falling back to 'nextbox' - retrying upgrade...";;
               let pkg := VStr "nextbox" in
               match apt_cache pkg with
               | Some pkg_obj => mret (Some (pkg, pkg_obj))
               | None =>
                   sys_log ERROR "CRITICAL: failed to find 'nextbox' in apt-cache";;
                   mret None
               end
           end;
  match found with
  | None => mret tt
  | Some (pkg, pkg_obj) =>
      (if negb (pkg_is_installed pkg_obj) then
         sys_log INFO ("installing debian package: " ++ py_str pkg
                       ++ " (start service: nextbox-updater)");;
         services_start "nextbox-updater"
       else if pkg_is_upgradable pkg_obj then
         sys_log INFO ("upgrading debian package: " ++ py_str pkg
                       ++ " (start service: nextbox-updater)");;
         services_start "nextbox-updater"
       else
         sys_log DEBUG ("no need to upgrade or install debian package: " ++ py_str pkg));;
      set_led_state "ready"
  end.

End SelfUpdate.

(** The package the self-update looks at: the designated one, or
    "nextbox" when the cache does not have it. *)
Definition chosen_package (apt_cache : Value → option Package) (pkg : Value) : option Package :=
  match apt_cache pkg with
  | Some pkg_obj => Some pkg_obj
  | None => apt_cache (VStr "nextbox")
  end.

(** * Properties *)

(** ** Running the monad *)

Ltac eff_unfold :=
  unfold job_log, mgr_log in *;
  unfold mbind, mret, Eff_bind, Eff_ret, gets, modify, raise, try_except in *.

Ltac eff_simpl := eff_unfold; cbv beta iota in *.

(** ** Arithmetic of [timedelta] *)

Lemma timedelta_normalised (us : Z) :
  0 ≤ seconds (timedelta_of_us us) < seconds_per_day
  ∧ 0 ≤ microseconds (timedelta_of_us us) < us_per_second.
Proof.
  unfold timedelta_of_us, seconds_per_day, us_per_second; cbn [seconds microseconds].
  split; apply Z.mod_pos_bound; lia.
Qed.

Lemma total_us_of_us (us : Z) : total_us (timedelta_of_us us) = us.
Proof.
  unfold total_us, timedelta_of_us, seconds_per_day, us_per_second;
    cbn [days seconds microseconds].
  pose proof (Z.div_mod us 1000000 ltac:(lia)) as H1.
  pose proof (Z.div_mod (us / 1000000) 86400 ltac:(lia)) as H2.
  lia.
Qed.

(** The [seconds] field of an elapsed time of [d] days, [t] seconds and
    [u] microseconds is [t]. *)
Lemma seconds_of_parts (d t u : Z) :
  0 ≤ t < seconds_per_day → 0 ≤ u < us_per_second →
  seconds (timedelta_of_us ((d * seconds_per_day + t) * us_per_second + u)) = t.
Proof.
  unfold timedelta_of_us, seconds_per_day, us_per_second; cbn [seconds].
  intros Ht Hu.
  replace (((d * 86400 + t) * 1000000 + u) / 1000000) with (d * 86400 + t).
  - rewrite Z.add_comm, Z_mod_plus_full. apply Z.mod_small; lia.
  - apply Z.div_unique with (r := u); lia.
Qed.

(** On a clock that has not gone back, the [seconds] field is at most
    the whole seconds elapsed. *)
Lemma seconds_le_elapsed (us : Z) :
  0 ≤ us → seconds (timedelta_of_us us) * us_per_second ≤ us.
Proof.
  intros Hus.
  unfold timedelta_of_us, seconds_per_day, us_per_second; cbn [seconds].
  pose proof (Z.div_mod us 1000000 ltac:(lia)) as H1.
  pose proof (Z.mod_pos_bound us 1000000 ltac:(lia)) as H2.
  assert (0 ≤ us / 1000000) by (apply Z.div_pos; lia).
  pose proof (Z.mod_le (us / 1000000) 86400 ltac:(lia) ltac:(lia)).
  lia.
Qed.

(** Within the first day the [seconds] field is the whole seconds elapsed. *)
Lemma seconds_within_a_day (us : Z) :
  0 ≤ us < seconds_per_day * us_per_second →
  seconds (timedelta_of_us us) = us / us_per_second.
Proof.
  intros Hus.
  unfold timedelta_of_us, seconds_per_day, us_per_second in *; cbn [seconds].
  apply Z.mod_small. split.
  - apply Z.div_pos; lia.
  - apply Z.div_lt_upper_bound; lia.
Qed.

(** ** [BaseJob.is_due] *)

(** [is_due] returns and leaves the job and the shared objects as they were. *)
Lemma is_due_pure (now : datetime) (c : JobCtx) :
  is_due now c = (Returned (due_at now (self c)), c).
Proof.
  unfold is_due, due_at. eff_simpl.
  destruct (interval (self c)); reflexivity.
Qed.

Lemma is_due_no_interval (now : datetime) (c : JobCtx) :
  interval (self c) = None → is_due now c = (Returned false, c).
Proof. intros H. rewrite is_due_pure. unfold due_at. now rewrite H. Qed.

(** Within a day of the last run, on a clock that has not gone back,
    [is_due] compares the whole seconds elapsed with the interval. *)
Lemma is_due_within_a_day (now : datetime) (c : JobCtx) (n : Z) :
  interval (self c) = Some n →
  0 ≤ now - last_run (self c) < seconds_per_day * us_per_second →
  is_due now c = (Returned ((now - last_run (self c)) / us_per_second >? n), c).
Proof.
  intros Hi Hel. rewrite is_due_pure. unfold due_at, dt_sub.
  now rewrite Hi, seconds_within_a_day.
Qed.

(** C9. With an interval of [n] seconds, when [d] days, [t] seconds
    ([0 <= t < 86400]) and [u] microseconds have elapsed since [last_run],
    [is_due] returns whether [t > n], whatever [d] is, and changes
    nothing; and a job whose interval is 86400 seconds or more is not due
    at any clock reading. *)
Theorem is_due_seconds_field_only (now : datetime) (c : JobCtx) (n d t u : Z) :
  interval (self c) = Some n →
  0 ≤ t < seconds_per_day →
  0 ≤ u < us_per_second →
  now - last_run (self c) = (d * seconds_per_day + t) * us_per_second + u →
  is_due now c = (Returned (t >? n), c)
  ∧ (seconds_per_day ≤ n → ∀ now', is_due now' c = (Returned false, c)).
Proof.
  intros Hi Ht Hu Hel. split.
  - rewrite is_due_pure. unfold due_at, dt_sub. rewrite Hi, Hel.
    now rewrite seconds_of_parts.
  - intros Hn now'. rewrite is_due_pure. unfold due_at, dt_sub. rewrite Hi.
    pose proof (timedelta_normalised (now' - last_run (self c))) as [Hs _].
    do 2 f_equal. rewrite Z.gtb_ltb. apply Z.ltb_ge. lia.
Qed.

(** A job with a two-hour interval, three days and eleven seconds after
    its last run. *)
Lemma is_due_seconds_field_only_witness :
  let c := {| self := BaseJob_init (Some 7200) 0; env := idle_env |} in
  is_due 259211000000 c = (Returned false, c)
  ∧ (seconds_per_day ≤ 7200 → ∀ now', is_due now' c = (Returned false, c)).
Proof.
  intros c.
  apply (is_due_seconds_field_only 259211000000 c 7200 3 11 0).
  - reflexivity.
  - unfold seconds_per_day; lia.
  - unfold us_per_second; lia.
  - reflexivity.
Defined.

(** C1. A job with a two-hour interval whose last run was one day and
    ten minutes ago: the elapsed time exceeds the interval, and [is_due]
    returns false. *)
Theorem is_due_after_a_day_is_false :
  let c := {| self := BaseJob_init (Some 7200) 0; env := idle_env |} in
  let now := 87000 * us_per_second in
  total_us (dt_sub now (last_run (self c))) > 7200 * us_per_second
  ∧ is_due now c = (Returned false, c).
Proof. split; reflexivity. Qed.

(** ** [BaseJob.run] *)

Lemma run_unfold (cls : JobClass) (now : datetime) (config : Cfg) (kwargs : Kwargs) (c : JobCtx) :
  run cls now config kwargs c =
    match cls_run cls config kwargs (at_body cls now c) with
    | (Returned _, c2) =>
        (Returned tt, on_env (log_emit DEBUG ("finished worker job: " ++ cls_name cls) None) c2)
    | (Raised e, c2) => (Raised e, c2)
    end.
Proof.
  unfold run, at_body. eff_simpl.
  destruct (cls_run cls config kwargs _) as [[[]|e] c2]; reflexivity.
Qed.

Lemma AbstractJob_keeps_last_run i : keeps_last_run (AbstractJob i).
Proof. intros config kwargs c. reflexivity. Qed.

Lemma LEDJob_keeps_last_run : keeps_last_run LEDJob.
Proof. intros config kwargs c. reflexivity. Qed.

Lemma run_self (cls : JobClass) (now : datetime) (config : Cfg) (kwargs : Kwargs) (c : JobCtx) :
  self (snd (run cls now config kwargs c))
  = self (snd (cls_run cls config kwargs (at_body cls now c))).
Proof.
  rewrite run_unfold.
  destruct (cls_run cls config kwargs _) as [[[]|e] c2]; reflexivity.
Qed.

Lemma run_raises (cls : JobClass) (now : datetime) (config : Cfg) (kwargs : Kwargs) (c : JobCtx) e :
  fst (cls_run cls config kwargs (at_body cls now c)) = Raised e →
  run cls now config kwargs c = (Raised e, snd (cls_run cls config kwargs (at_body cls now c))).
Proof.
  rewrite run_unfold.
  destruct (cls_run cls config kwargs _) as [[[]|e'] c2]; cbn; congruence.
Qed.

(** Not due while at most [n] whole seconds have gone by since [last_run]. *)
Lemma not_due_within_interval (t : datetime) (s : JobState) :
  last_run s ≤ t →
  (∀ n, interval s = Some n → t - last_run s < (n + 1) * us_per_second) →
  due_at t s = false.
Proof.
  intros Ht Hn. unfold due_at, dt_sub.
  destruct (interval s) as [n|]; [|reflexivity].
  specialize (Hn n eq_refl).
  pose proof (seconds_le_elapsed (t - last_run s) ltac:(lia)) as Hle.
  rewrite Z.gtb_ltb. apply Z.ltb_ge.
  unfold us_per_second in *. lia.
Qed.

(** Due only when more than the interval has gone by since [last_run]. *)
Lemma due_after_interval (t : datetime) (s : JobState) (n : Z) :
  last_run s ≤ t → interval s = Some n → due_at t s = true →
  n * us_per_second < t - last_run s.
Proof.
  intros Ht Hi. unfold due_at, dt_sub. rewrite Hi.
  rewrite Z.gtb_ltb. intros Hd%Z.ltb_lt.
  pose proof (seconds_le_elapsed (t - last_run s) ltac:(lia)) as Hle.
  unfold us_per_second in *. lia.
Qed.

(** C5, as amended. [run] sets [last_run] to the clock reading and then
    invokes the body; the job keeps that [last_run] whether the body
    returns or raises, and [run] raises what the body raised.  On a clock
    that does not go back, [is_due] is then false as long as no more than
    the interval, in whole seconds, has gone by since the run started, and
    it is true only when more than the interval has. *)
Theorem run_stamps_last_run_first
    (cls : JobClass) (now : datetime) (config : Cfg) (kwargs : Kwargs) (c : JobCtx) :
  keeps_last_run cls →
  let body := cls_run cls config kwargs (at_body cls now c) in
  let r := run cls now config kwargs c in
  last_run (self (at_body cls now c)) = now
  ∧ self (snd r) = self (snd body)
  ∧ (∀ e, fst body = Raised e → fst r = Raised e)
  ∧ last_run (self (snd r)) = now
  ∧ (∀ t, now ≤ t →
       (∀ n, interval (self (snd r)) = Some n → t - now < (n + 1) * us_per_second) →
       is_due t (snd r) = (Returned false, snd r))
  ∧ (∀ t n, now ≤ t → interval (self (snd r)) = Some n →
       is_due t (snd r) = (Returned true, snd r) →
       n * us_per_second < t - now).
Proof.
  intros Hk body r.
  assert (Hlr : last_run (self (snd r)) = now).
  { subst r. rewrite run_self, Hk. reflexivity. }
  split; [reflexivity|]. split; [apply run_self|]. split.
  { intros e He. subst r. now rewrite (run_raises _ _ _ _ _ e). }
  split; [exact Hlr|]. split.
  - intros t Ht Hn. rewrite is_due_pure. do 2 f_equal.
    apply not_due_within_interval; rewrite Hlr; assumption.
  - intros t n Ht Hi Hd. rewrite is_due_pure in Hd.
    pose proof (due_after_interval t (self (snd r)) n) as Hafter.
    rewrite Hlr in Hafter. apply Hafter; [assumption|assumption|congruence].
Qed.

(** A job whose body raises, run one minute into the clock: nine
    seconds later it is not due. *)
Lemma run_stamps_last_run_first_witness :
  let cls := AbstractJob (Some 10) in
  let c := {| self := BaseJob_init (Some 10) 0; env := idle_env |} in
  let r := run cls 60000000 ∅ ∅ c in
  fst r = Raised NotImplementedError
  ∧ last_run (self (snd r)) = 60000000
  ∧ is_due 69000000 (snd r) = (Returned false, snd r).
Proof.
  intros cls c r.
  destruct (run_stamps_last_run_first cls 60000000 ∅ ∅ c (AbstractJob_keeps_last_run _))
    as (_ & _ & Hraise & Hlr & Hnot & _).
  split; [apply Hraise; reflexivity|]. split; [exact Hlr|].
  apply Hnot; [lia|].
  intros n Hn. cbn in Hn. injection Hn as <-. unfold us_per_second. lia.
Defined.

(** C5, as the claim states it, fails when the body runs for longer
    than the interval: a backup in progress is polled every second, the
    step of this run takes two seconds, and [is_due] is true at the very
    moment [run] completes. *)
Lemma is_due_right_after_a_slow_run :
  let cls := BackupRestoreJob (λ _, []) (λ _, []) in
  let step := (VStr "running", (VStr "a", VStr "files"), VInt 10) in
  let c := {| self := {| interval := Some 1; last_run := 0; iterator := Some [step; step] |};
              env := idle_env |} in
  let started := 5000000 in
  let completed := 7000000 in
  let r := run cls started ∅ ∅ c in
  fst r = Returned tt
  ∧ last_run (self (snd r)) = started
  ∧ started ≤ completed
  ∧ is_due completed (snd r) = (Returned true, snd r).
Proof. repeat split. discriminate. Qed.

(** ** [BackupRestoreJob._run] *)

Section BackupRestoreFacts.

Variables full_export full_import : Value → Iterator.

Local Abbreviation _run := (BackupRestoreJob__run full_export full_import).

Ltac branch :=
  cbn [not_iterator negb orb andb from_option id]; eff_simpl.

Lemma _run_missing_args config (kwargs : Kwargs) c :
  iterator (self c) = None →
  kwargs !! "tar_path" = None ∨ kwargs !! "mode" = None →
  _run config kwargs c = (Returned tt, rejected msg_missing_args c).
Proof.
  intros Hit Hk. unfold BackupRestoreJob__run. eff_simpl. rewrite Hit.
  unfold has_key.
  destruct Hk as [-> | ->]; [|destruct (kwargs !! "tar_path")]; reflexivity.
Qed.

Lemma _run_bad_mode config (kwargs : Kwargs) c :
  iterator (self c) = None →
  is_Some (kwargs !! "tar_path") → is_Some (kwargs !! "mode") →
  in_backup_restore (dict_get_default "mode" kwargs) = false →
  _run config kwargs c = (Returned tt, rejected msg_bad_mode c).
Proof.
  intros Hit [p Hp] [m Hm] Hbad. unfold BackupRestoreJob__run. eff_simpl.
  rewrite Hit. unfold has_key. rewrite Hp, Hm. branch.
  rewrite Hit, Hbad. reflexivity.
Qed.

Lemma _run_start config (kwargs : Kwargs) c p m :
  iterator (self c) = None →
  kwargs !! "tar_path" = Some p → kwargs !! "mode" = Some m →
  m = VStr "backup" ∨ m = VStr "restore" →
  _run config kwargs c = (Returned tt, started full_export full_import p m c).
Proof.
  intros Hit Hp Hm Hmode. unfold BackupRestoreJob__run, started. eff_simpl.
  assert (in_backup_restore m = true) as Hin.
  { unfold in_backup_restore. destruct Hmode as [-> | ->]; reflexivity. }
  rewrite Hit. unfold has_key, dict_get_default, getitem. rewrite Hp, Hm. branch.
  rewrite Hit, Hin. branch. rewrite Hit. branch.
  destruct (bool_decide (m = VStr "backup")); reflexivity.
Qed.

Lemma _run_pull config (kwargs : Kwargs) c r rest :
  iterator (self c) = Some (r :: rest) →
  _run config kwargs c =
    (Returned tt,
     on_env (on_board (board_set "backup_restore" (progress_record r)))
       (set_iterator (Some rest) c)).
Proof.
  intros Hit. unfold BackupRestoreJob__run, next_iterator. eff_simpl.
  rewrite Hit. branch. rewrite Hit. branch. rewrite Hit. branch.
  rewrite Hit. reflexivity.
Qed.

Lemma _run_exhausted config (kwargs : Kwargs) c :
  iterator (self c) = Some [] →
  _run config kwargs c = (Returned tt, set_interval None (set_iterator None c)).
Proof.
  intros Hit. unfold BackupRestoreJob__run, next_iterator. eff_simpl.
  rewrite Hit. branch. rewrite Hit. branch. rewrite Hit. branch.
  rewrite Hit. reflexivity.
Qed.

Lemma BackupRestoreJob_keeps_last_run :
  keeps_last_run (BackupRestoreJob full_export full_import).
Proof.
  intros config kwargs c. cbn [cls_run BackupRestoreJob].
  destruct (iterator (self c)) as [[|r rest]|] eqn:Hit.
  - now rewrite _run_exhausted.
  - now rewrite (_run_pull _ _ _ r rest).
  - destruct (kwargs !! "tar_path") as [p|] eqn:Hp;
      [|rewrite _run_missing_args; auto].
    destruct (kwargs !! "mode") as [m|] eqn:Hm;
      [|rewrite _run_missing_args; auto].
    destruct (in_backup_restore m) eqn:Hin.
    + rewrite (_run_start _ _ _ p m); auto.
      unfold in_backup_restore in Hin.
      apply orb_prop in Hin as [H%bool_decide_eq_true | H%bool_decide_eq_true]; auto.
    + rewrite _run_bad_mode; auto.
      unfold dict_get_default. now rewrite Hm.
Qed.

End BackupRestoreFacts.

Section BackupRestoreClaims.

Variables full_export full_import : Value → Iterator.

Local Abbreviation _run := (BackupRestoreJob__run full_export full_import).

(** C7. Idle, and the arguments lack [tar_path] or [mode], or the mode
    is neither "backup" nor "restore": [_run] returns, exactly one
    message is appended to the board's queue (and logged as an error),
    no topic of the board is written, and the job's attributes
    (interval, iterator, last run) are as before. *)
Theorem backup_restore_rejects_bad_start (config : Cfg) (kwargs : Kwargs) (c : JobCtx) :
  iterator (self c) = None →
  (kwargs !! "tar_path" = None
   ∨ kwargs !! "mode" = None
   ∨ ∃ m, kwargs !! "mode" = Some m ∧ m ≠ VStr "backup" ∧ m ≠ VStr "restore") →
  ∃ text c',
    _run config kwargs c = (Returned tt, c')
    ∧ messages (board (env c')) = (messages (board (env c)) ++ [text])%list
    ∧ topics (board (env c')) = topics (board (env c))
    ∧ log (env c') = (log (env c) ++ [mkLog ERROR text None])%list
    ∧ self c' = self c.
Proof.
  intros Hit Hbad.
  destruct (kwargs !! "tar_path") as [p|] eqn:Hp.
  2: { exists msg_missing_args, (rejected msg_missing_args c).
       rewrite _run_missing_args; auto. }
  destruct (kwargs !! "mode") as [m|] eqn:Hm.
  2: { exists msg_missing_args, (rejected msg_missing_args c).
       rewrite _run_missing_args; auto. }
  destruct Hbad as [Hbad | [Hbad | (m' & Hm' & Hb & Hr)]]; try discriminate.
  injection Hm' as <-.
  exists msg_bad_mode, (rejected msg_bad_mode c).
  rewrite _run_bad_mode; auto.
  unfold dict_get_default, in_backup_restore. rewrite Hm. cbn [from_option id].
  rewrite !bool_decide_eq_false_2; auto.
Qed.

(** C3, as amended. Idle, with a [tar_path] and a mode "backup" or
    "restore": [_run] returns; the topic "backup_restore" holds the
    fields state "starting", percent "0" (a string), who "all", the
    given tar_path, what "export" for a backup and "import" for a
    restore, and the given mode, merged over what the topic held; the
    iterator is the export sequence for a backup and the import
    sequence for a restore, none of its records pulled; the interval
    is 1; the message queue, the log and [last_run] are as before. *)
Theorem backup_restore_start (config : Cfg) (kwargs : Kwargs) (c : JobCtx) (p m : Value) :
  iterator (self c) = None →
  kwargs !! "tar_path" = Some p →
  kwargs !! "mode" = Some m →
  m = VStr "backup" ∨ m = VStr "restore" →
  ∃ c' rec,
    _run config kwargs c = (Returned tt, c')
    ∧ topics (board (env c')) = <["backup_restore" := rec]> (topics (board (env c)))
    ∧ rec = starting_record p m ∪ default ∅ (topics (board (env c)) !! "backup_restore")
    ∧ rec !! "state" = Some (VStr "starting")
    ∧ rec !! "percent" = Some (VStr "0")
    ∧ rec !! "who" = Some (VStr "all")
    ∧ rec !! "tar_path" = Some p
    ∧ rec !! "what" = Some (if bool_decide (m = VStr "backup") then VStr "export" else VStr "import")
    ∧ rec !! "mode" = Some m
    ∧ iterator (self c')
      = Some (if bool_decide (m = VStr "backup") then full_export p else full_import p)
    ∧ interval (self c') = Some 1
    ∧ last_run (self c') = last_run (self c)
    ∧ messages (board (env c')) = messages (board (env c))
    ∧ log (env c') = log (env c).
Proof.
  intros Hit Hp Hm Hmode.
  exists (started full_export full_import p m c).
  eexists. split; [now apply _run_start|].
  split; [reflexivity|]. split; [reflexivity|].
  repeat split; apply lookup_union_Some_l; reflexivity.
Qed.

(** C2. With an iterator present, [_run] returns and pulls one item.
    If the sequence yields [(state, (who, what), percent)], the topic
    "backup_restore" is set to the record of exactly these four
    fields, the iterator stays in place one item further and the
    interval is as before; if the sequence is exhausted, the iterator
    and the interval become [None] and the board is as before.  In
    both cases the message queue, the log and [last_run] are as
    before. *)
Theorem backup_restore_pull (config : Cfg) (kwargs : Kwargs) (c : JobCtx) (it : Iterator) :
  iterator (self c) = Some it →
  ∃ c',
    _run config kwargs c = (Returned tt, c')
    ∧ match it with
      | (state, (who, what), percent) :: rest =>
          iterator (self c') = Some rest
          ∧ interval (self c') = interval (self c)
          ∧ topics (board (env c'))
            = <["backup_restore" :=
                  {[ "state" := state; "who" := who; "what" := what; "percent" := percent ]}]>
                (topics (board (env c)))
      | [] =>
          iterator (self c') = None
          ∧ interval (self c') = None
          ∧ topics (board (env c')) = topics (board (env c))
      end
    ∧ messages (board (env c')) = messages (board (env c))
    ∧ log (env c') = log (env c)
    ∧ last_run (self c') = last_run (self c).
Proof.
  intros Hit. destruct it as [|[[state [who what]] percent] rest].
  - eexists. split; [apply _run_exhausted, Hit|]. repeat split.
  - eexists. split; [eapply _run_pull, Hit|]. repeat split.
Qed.

Lemma starting_record_other (p m : Value) (k : string) :
  k ∉ starting_fields → starting_record p m !! k = None.
Proof.
  unfold starting_fields, starting_record. intros Hk.
  repeat (apply not_elem_of_cons in Hk as [? Hk]).
  rewrite !lookup_insert_ne by congruence. apply lookup_singleton_ne. congruence.
Qed.

(** C10. The start request merges its record into the topic
    "backup_restore": every field the topic held before is still
    there, with its old value unless it is one of the six fields
    written, and [tar_path] and [mode] are there.  Each progress
    record, in the state the start left or any later one, replaces the
    topic's record: once it is published the topic holds exactly its
    four fields, and [tar_path] and [mode] are gone. *)
Theorem start_merges_progress_replaces
    (config : Cfg) (kwargs kwargs' : Kwargs) (c : JobCtx) (p m : Value) :
  iterator (self c) = None →
  kwargs !! "tar_path" = Some p →
  kwargs !! "mode" = Some m →
  m = VStr "backup" ∨ m = VStr "restore" →
  let old := default ∅ (topics (board (env c)) !! "backup_restore") in
  ∃ c1 rec1,
    _run config kwargs c = (Returned tt, c1)
    ∧ topics (board (env c1)) !! "backup_restore" = Some rec1
    ∧ rec1 = starting_record p m ∪ old
    ∧ (∀ k, is_Some (old !! k) → is_Some (rec1 !! k))
    ∧ (∀ k v, old !! k = Some v → k ∉ starting_fields → rec1 !! k = Some v)
    ∧ rec1 !! "tar_path" = Some p
    ∧ rec1 !! "mode" = Some m
    ∧ (∀ c' r rest, iterator (self c') = Some (r :: rest) →
         ∃ c2,
           _run config kwargs' c' = (Returned tt, c2)
           ∧ topics (board (env c2)) !! "backup_restore" = Some (progress_record r)
           ∧ dom (progress_record r) = {[ "state"; "who"; "what"; "percent" ]}
           ∧ progress_record r !! "tar_path" = None
           ∧ progress_record r !! "mode" = None).
Proof.
  intros Hit Hp Hm Hmode old.
  exists (started full_export full_import p m c), (starting_record p m ∪ old).
  split; [now apply _run_start|].
  split; [apply lookup_insert_eq|]. split; [reflexivity|].
  split; [|split; [|split; [|split]]].
  - intros k [v Hv]. rewrite lookup_union. rewrite Hv.
    destruct (starting_record p m !! k); eauto.
  - intros k v Hv Hk. rewrite lookup_union_r; [exact Hv|].
    now apply starting_record_other.
  - apply lookup_union_Some_l. reflexivity.
  - apply lookup_union_Some_l. reflexivity.
  - intros c' r rest Hr. eexists. split; [eapply _run_pull, Hr|].
    split; [apply lookup_insert_eq|].
    destruct r as [[state [who what]] percent]. cbn [progress_record].
    split; [|split; reflexivity].
    rewrite !dom_insert_L, dom_singleton_L. set_solver.
Qed.

End BackupRestoreClaims.

(** *** The claims on the specification's examples *)

(** A start request with the mode "delete". *)
Lemma backup_restore_rejects_bad_start_witness :
  ∃ text c',
    BackupRestoreJob__run no_records no_records ∅ delete_kwargs idle_job = (Returned tt, c')
    ∧ messages (board (env c')) = [text]
    ∧ topics (board (env c')) = ∅
    ∧ log (env c') = [mkLog ERROR text None]
    ∧ self c' = self idle_job.
Proof.
  apply (backup_restore_rejects_bad_start no_records no_records ∅ delete_kwargs idle_job).
  - reflexivity.
  - right; right. exists (VStr "delete").
    split; [reflexivity | split; discriminate].
Defined.

(** A backup of "/tmp/x.tar" requested while idle. *)
Lemma backup_restore_start_witness :
  ∃ c' rec,
    BackupRestoreJob__run (λ _, three_records) no_records ∅ backup_kwargs idle_job
    = (Returned tt, c')
    ∧ topics (board (env c')) = <["backup_restore" := rec]> (topics (board (env idle_job)))
    ∧ rec = starting_record (VStr "/tmp/x.tar") (VStr "backup")
            ∪ default ∅ (topics (board (env idle_job)) !! "backup_restore")
    ∧ rec !! "state" = Some (VStr "starting")
    ∧ rec !! "percent" = Some (VStr "0")
    ∧ rec !! "who" = Some (VStr "all")
    ∧ rec !! "tar_path" = Some (VStr "/tmp/x.tar")
    ∧ rec !! "what" = Some (VStr "export")
    ∧ rec !! "mode" = Some (VStr "backup")
    ∧ iterator (self c') = Some three_records
    ∧ interval (self c') = Some 1
    ∧ last_run (self c') = last_run (self idle_job)
    ∧ messages (board (env c')) = messages (board (env idle_job))
    ∧ log (env c') = log (env idle_job).
Proof.
  apply (backup_restore_start (λ _, three_records) no_records ∅ backup_kwargs idle_job
           (VStr "/tmp/x.tar") (VStr "backup")).
  - reflexivity.
  - reflexivity.
  - reflexivity.
  - left; reflexivity.
Defined.

(** C3, as the claim states it, fails on the percent: the record
    published at the start holds the string "0", not the number 0. *)
Lemma starting_percent_is_not_a_number :
  let c' := snd (BackupRestoreJob__run (λ _, three_records) no_records ∅ backup_kwargs idle_job) in
  ∃ rec,
    topics (board (env c')) !! "backup_restore" = Some rec
    ∧ rec !! "percent" = Some (VStr "0")
    ∧ rec !! "percent" ≠ Some (VInt 0).
Proof.
  eexists. split; [reflexivity|]. split; [reflexivity|discriminate].
Qed.

(** The first poll of a backup with the three records to come. *)
Lemma backup_restore_pull_witness :
  ∃ c',
    BackupRestoreJob__run no_records no_records ∅ ∅ running_job = (Returned tt, c')
    ∧ (iterator (self c') = Some (tail three_records)
       ∧ interval (self c') = Some 1
       ∧ topics (board (env c'))
         = <["backup_restore" :=
               {[ "state" := VStr "running"; "who" := VStr "a";
                  "what" := VStr "files"; "percent" := VInt 10 ]}]> ∅)
    ∧ messages (board (env c')) = []
    ∧ log (env c') = []
    ∧ last_run (self c') = 0.
Proof.
  apply (backup_restore_pull no_records no_records ∅ ∅ running_job three_records).
  reflexivity.
Defined.

(** A restore requested over a topic that still holds fields of an
    earlier operation. *)
Lemma start_merges_progress_replaces_witness :
  let leftover : PyDict := {[ "state" := VStr "done"; "note" := VStr "kept" ]} in
  let c := {| self := BaseJob_init None 0;
              env := {| board := {| topics := {[ "backup_restore" := leftover ]};
                                    messages := [] |};
                        log := [] |} |} in
  let kwargs : Kwargs := {[ "tar_path" := VStr "/tmp/x.tar"; "mode" := VStr "restore" ]} in
  ∃ c1 rec1,
    BackupRestoreJob__run no_records (λ _, three_records) ∅ kwargs c = (Returned tt, c1)
    ∧ topics (board (env c1)) !! "backup_restore" = Some rec1
    ∧ rec1 !! "note" = Some (VStr "kept")
    ∧ rec1 !! "state" = Some (VStr "starting")
    ∧ rec1 !! "tar_path" = Some (VStr "/tmp/x.tar")
    ∧ ∃ c2 rec2,
        BackupRestoreJob__run no_records (λ _, three_records) ∅ ∅ c1 = (Returned tt, c2)
        ∧ topics (board (env c2)) !! "backup_restore" = Some rec2
        ∧ rec2 !! "note" = None
        ∧ rec2 !! "tar_path" = None
        ∧ rec2 !! "mode" = None.
Proof.
  intros leftover c kwargs.
  destruct (start_merges_progress_replaces no_records (λ _, three_records) ∅ kwargs ∅ c
              (VStr "/tmp/x.tar") (VStr "restore"))
    as (c1 & rec1 & Hrun & Htopic & Hrec & _ & Hkeep & Htar & _ & Hnext).
  - reflexivity.
  - reflexivity.
  - reflexivity.
  - right; reflexivity.
  - exists c1, rec1. split; [exact Hrun|]. split; [exact Htopic|].
    split.
    { apply Hkeep; [reflexivity|]. unfold starting_fields.
      repeat (apply not_elem_of_cons; split; [discriminate|]). apply not_elem_of_nil. }
    split. { rewrite Hrec. reflexivity. }
    split; [exact Htar|].
    assert (iterator (self c1) = Some three_records) as Hit1
      by (injection Hrun as <-; reflexivity).
    destruct (Hnext c1 _ _ Hit1) as (c2 & Hrun2 & Htopic2 & _ & Htar2 & Hmode2).
    exists c2. eexists. split; [exact Hrun2|]. split; [exact Htopic2|].
    split; [reflexivity|]. split; [exact Htar2|exact Hmode2].
Defined.

(** ** Ordered dicts *)

Section OrderedDict.

Context {V : Type}.
Implicit Types (d : odict V) (k : string) (v : V).

Lemma dict_get_set_eq k v d : dict_get k (dict_set k v d) = Some v.
Proof.
  induction d as [|[k' v'] d IH]; cbn.
  - now rewrite decide_True.
  - destruct (decide (k = k')) as [->|Hne]; cbn.
    + now rewrite decide_True.
    + now rewrite decide_False.
Qed.

Lemma dict_get_set_ne k k' v d :
  k ≠ k' → dict_get k' (dict_set k v d) = dict_get k' d.
Proof.
  intros Hne. induction d as [|[k0 v0] d IH]; cbn.
  - rewrite decide_False by congruence. reflexivity.
  - destruct (decide (k = k0)) as [->|Hk]; cbn.
    + rewrite !decide_False by congruence. reflexivity.
    + rewrite IH. reflexivity.
Qed.

Lemma dict_get_None_keys k d : dict_get k d = None ↔ k ∉ map fst d.
Proof.
  induction d as [|[k' v'] d IH]; cbn.
  - split; [intros _; apply not_elem_of_nil | reflexivity].
  - rewrite not_elem_of_cons. destruct (decide (k = k')) as [->|Hne].
    + split; [discriminate | intros [[] _]; reflexivity].
    + rewrite IH. tauto.
Qed.

(** Assigning to a present key changes neither the keys nor their order;
    a new key goes to the end. *)
Lemma dict_set_keys k v d :
  map fst (dict_set k v d)
  = if dict_contains k d then map fst d else (map fst d ++ [k])%list.
Proof.
  unfold dict_contains. induction d as [|[k' v'] d IH]; cbn; [reflexivity|].
  destruct (decide (k = k')) as [->|Hne]; cbn; [reflexivity|].
  rewrite IH. destruct (dict_get k d); reflexivity.
Qed.

Lemma dict_set_length k v d :
  dict_contains k d = true → length (dict_set k v d) = length d.
Proof.
  intros Hc. rewrite <- (length_map fst), dict_set_keys, Hc.
  apply length_map.
Qed.

Lemma dict_set_NoDup k v d :
  NoDup (map fst d) → NoDup (map fst (dict_set k v d)).
Proof.
  intros Hd. rewrite dict_set_keys. unfold dict_contains.
  destruct (dict_get k d) eqn:Hg; [assumption|].
  apply NoDup_app. split; [assumption|]. split; [|apply NoDup_singleton].
  intros x Hx ->%list_elem_of_singleton.
  now apply dict_get_None_keys in Hg.
Qed.

(** Storing the value a key already has changes nothing. *)
Lemma dict_set_same k v d : dict_get k d = Some v → dict_set k v d = d.
Proof.
  induction d as [|[k' v'] d IH]; cbn; [discriminate|].
  destruct (decide (k = k')) as [->|Hne].
  - now intros [= ->].
  - intros Hg. now rewrite IH.
Qed.

Lemma dict_get_first k v d : dict_get k ((k, v) :: d) = Some v.
Proof. cbn. now rewrite decide_True. Qed.

Lemma dict_get_later k k' v d :
  k' ≠ k → dict_get k ((k', v) :: d) = dict_get k d.
Proof. intros Hne. cbn. rewrite decide_False by congruence. reflexivity. Qed.

(** With one item per key, every item is the one its key reaches. *)
Lemma dict_get_item k v d :
  NoDup (map fst d) → (k, v) ∈ d → dict_get k d = Some v.
Proof.
  induction d as [|[k' v'] d IH]; cbn [map fst].
  - intros _ Hin. now apply elem_of_nil in Hin.
  - intros [Hnotin Hd]%NoDup_cons [[= -> ->] | Hin]%elem_of_cons.
    + apply dict_get_first.
    + rewrite dict_get_later; [now apply IH|].
      intros ->. apply Hnotin. apply list_elem_of_fmap. now exists (k, v).
Qed.

End OrderedDict.

(** ** [JobManager] *)

Lemma MgrCtx_eta (σ : MgrCtx) :
  {| mgr := {| cfg := cfg (mgr σ); jobs := jobs (mgr σ) |}; menv := menv σ |} = σ.
Proof. now destruct σ as [[] ?]. Qed.

(** *** [handle_job] *)

Lemma handle_job_unknown (now : datetime) (name : string) (kwargs : Kwargs) (σ : MgrCtx) :
  dict_get name (jobs (mgr σ)) = None →
  handle_job now name kwargs σ
  = (Returned tt,
     {| mgr := mgr σ;
        menv := log_emit ERROR ("could not find job with name: " ++ name) None (menv σ) |}).
Proof.
  intros Hg. unfold handle_job, dict_contains. eff_simpl. now rewrite Hg.
Qed.

Lemma handle_job_known (now : datetime) (name : string) (kwargs : Kwargs) (σ : MgrCtx) (j : Job) :
  dict_get name (jobs (mgr σ)) = Some j →
  handle_job now name kwargs σ = (Returned tt, dispatched now name kwargs j σ).
Proof.
  intros Hg. unfold handle_job, dict_contains, call_job, dispatched. eff_simpl.
  rewrite Hg. cbn [negb]. cbv beta iota. rewrite Hg.
  destruct (run (job_class j) now (cfg (mgr σ)) kwargs _) as [[[]|e] c]; reflexivity.
Qed.

Lemma handle_job_returns (now : datetime) (name : string) (kwargs : Kwargs) (σ : MgrCtx) :
  fst (handle_job now name kwargs σ) = Returned tt.
Proof.
  destruct (dict_get name (jobs (mgr σ))) as [j|] eqn:Hg.
  - now rewrite (handle_job_known _ _ _ _ j Hg).
  - now rewrite (handle_job_unknown _ _ _ _ Hg).
Qed.

(** C4. [handle_job] returns for every name and arguments.  For a name
    that is not registered it logs one error and leaves the manager, its
    jobs and the board as they were.  For a registered name it invokes
    the job's [run]: the job keeps what [run] did to it, and when [run]
    raised, the exception is logged in two error records and goes no
    further. *)
Theorem handle_job_never_raises (now : datetime) (name : string) (kwargs : Kwargs) (σ : MgrCtx) :
  let σ' := snd (handle_job now name kwargs σ) in
  fst (handle_job now name kwargs σ) = Returned tt
  ∧ (dict_get name (jobs (mgr σ)) = None →
       mgr σ' = mgr σ
       ∧ board (menv σ') = board (menv σ)
       ∧ log (menv σ')
         = (log (menv σ) ++ [mkLog ERROR ("could not find job with name: " ++ name) None])%list)
  ∧ (∀ j, dict_get name (jobs (mgr σ)) = Some j →
       let rc := run (job_class j) now (cfg (mgr σ)) kwargs
                   {| self := job_state j; env := menv σ |} in
       dict_get name (jobs (mgr σ'))
       = Some {| job_class := job_class j; job_state := self (snd rc) |}
       ∧ (∀ other, other ≠ name →
            dict_get other (jobs (mgr σ')) = dict_get other (jobs (mgr σ)))
       ∧ match fst rc with
         | Returned _ => menv σ' = env (snd rc)
         | Raised e =>
             board (menv σ') = board (env (snd rc))
             ∧ log (menv σ')
               = (log (env (snd rc))
                  ++ [mkLog ERROR ("failed running job: " ++ name) None;
                      mkLog ERROR "EXC" (Some e)])%list
         end).
Proof.
  intros σ'. subst σ'.
  destruct (dict_get name (jobs (mgr σ))) as [j|] eqn:Hg.
  - rewrite (handle_job_known _ _ _ _ j Hg). cbn [fst snd].
    split; [reflexivity|]. split; [discriminate|].
    intros j' [= <-]. unfold dispatched. cbn [mgr jobs menv].
    split; [apply dict_get_set_eq|]. split.
    { intros other Hne. apply dict_get_set_ne. congruence. }
    destruct (fst (run _ _ _ _ _)); [reflexivity|].
    split; [reflexivity|]. cbn [log_emit log]. now rewrite <- app_assoc.
  - rewrite (handle_job_unknown _ _ _ _ Hg). cbn [fst snd].
    split; [reflexivity|]. split; [intros _; repeat split|discriminate].
Qed.

(** Dispatching does not change the class of any registered job. *)
Lemma handle_job_keeps_class (now : datetime) (name : string) (kwargs : Kwargs)
    (σ : MgrCtx) (n : string) (j : Job) :
  dict_get n (jobs (mgr σ)) = Some j →
  ∃ j', dict_get n (jobs (mgr (snd (handle_job now name kwargs σ)))) = Some j'
        ∧ job_class j' = job_class j.
Proof.
  intros Hn.
  destruct (dict_get name (jobs (mgr σ))) as [j0|] eqn:Hg.
  - rewrite (handle_job_known _ _ _ _ j0 Hg). cbn [snd dispatched mgr jobs].
    destruct (decide (n = name)) as [->|Hne].
    + rewrite dict_get_set_eq. eexists. split; [reflexivity|]. cbn. congruence.
    + rewrite dict_get_set_ne by congruence. eauto.
  - rewrite (handle_job_unknown _ _ _ _ Hg). cbn. eauto.
Qed.

Lemma handle_jobs_cons now name kwargs rest (σ : MgrCtx) :
  handle_jobs ((now, name, kwargs) :: rest) σ
  = handle_jobs rest (snd (handle_job now name kwargs σ)).
Proof.
  cbn [handle_jobs]. unfold mbind, Eff_bind.
  pose proof (handle_job_returns now name kwargs σ) as Hret.
  destruct (handle_job now name kwargs σ) as [[[]|e] σ']; cbn in *; congruence.
Qed.

Lemma handle_jobs_keeps_class (ds : list (datetime * string * Kwargs))
    (σ : MgrCtx) (n : string) (j : Job) :
  dict_get n (jobs (mgr σ)) = Some j →
  ∃ j', dict_get n (jobs (mgr (snd (handle_jobs ds σ)))) = Some j'
        ∧ job_class j' = job_class j.
Proof.
  revert σ j. induction ds as [|[[now name] kwargs] rest IH]; intros σ j Hn.
  - cbn. eauto.
  - rewrite handle_jobs_cons.
    destruct (handle_job_keeps_class now name kwargs σ n j Hn) as (j1 & Hj1 & Hc1).
    destruct (IH _ _ Hj1) as (j2 & Hj2 & Hc2).
    exists j2. split; [exact Hj2|congruence].
Qed.

(** *** [register_job] *)

Lemma register_job_eval (job : JobClass) (now : datetime) (σ : MgrCtx) :
  register_job job now σ = (Returned tt, registered job now σ).
Proof.
  unfold register_job, registered, register_log, set_jobs. eff_simpl.
  cbn [mgr jobs menv cfg].
  destruct (dict_contains (cls_name job) (jobs (mgr σ))); cbv beta iota;
    cbn [mgr jobs menv cfg log_emit log board]; [|reflexivity].
  unfold log_emit. cbn [log board]. now rewrite <- app_assoc.
Qed.

(** *** [get_recurring_job] *)

Lemma call_job_is_due (t : datetime) (name : string) (j : Job) (σ : MgrCtx) :
  dict_get name (jobs (mgr σ)) = Some j →
  call_job name (λ _, is_due t) σ = (Returned (due_at t (job_state j)), σ).
Proof.
  intros Hg. unfold call_job. rewrite Hg, is_due_pure. cbn [self env].
  rewrite dict_set_same; [now rewrite MgrCtx_eta|].
  rewrite Hg. now destruct j.
Qed.

Lemma scan_jobs_eval (clock : nat → datetime) (σ : MgrCtx) (k : nat) (items : odict Job) :
  (∀ n j, (n, j) ∈ items → dict_get n (jobs (mgr σ)) = Some j) →
  scan_jobs clock k (map fst items) σ = (Returned (first_due clock k items), σ).
Proof.
  revert k. induction items as [|[n j] rest IH]; intros k Hitems; [reflexivity|].
  cbn [map fst scan_jobs first_due]. unfold mbind, Eff_bind.
  rewrite (call_job_is_due _ _ j) by (apply Hitems; left).
  destruct (due_at (clock k) (job_state j)); [reflexivity|].
  apply IH. intros n' j' Hin. apply Hitems. now right.
Qed.

(** [get_recurring_job] returns the first due job and changes nothing. *)
Lemma get_recurring_job_eval (clock : nat → datetime) (σ : MgrCtx) :
  NoDup (map fst (jobs (mgr σ))) →
  get_recurring_job clock σ = (Returned (first_due clock 0 (jobs (mgr σ))), σ).
Proof.
  intros Hd. unfold get_recurring_job. eff_simpl.
  apply scan_jobs_eval. intros n j Hin. now apply dict_get_item.
Qed.

Lemma first_due_Some (clock : nat → datetime) (k : nat) (items : odict Job) (name : string) :
  first_due clock k items = Some name ↔
  ∃ (i : nat) (j : Job),
    items !! i = Some (name, j)
    ∧ due_at (clock (k + i)%nat) (job_state j) = true
    ∧ ∀ (i' : nat) n' j', (i' < i)%nat → items !! i' = Some (n', j') →
        due_at (clock (k + i')%nat) (job_state j') = false.
Proof.
  revert k. induction items as [|[n j] rest IH]; intros k; cbn [first_due].
  - split; [discriminate|]. now intros (i & j & Hi & _).
  - destruct (due_at (clock k) (job_state j)) eqn:Hdue.
    + split.
      * intros [= <-]. exists 0%nat, j. rewrite Nat.add_0_r.
        split; [reflexivity|]. split; [exact Hdue|]. intros; lia.
      * intros (i & j0 & Hi & Hd & Hbefore).
        destruct i as [|i]; [now injection Hi as -> _|].
        specialize (Hbefore 0%nat n j ltac:(lia) eq_refl).
        rewrite Nat.add_0_r in Hbefore. congruence.
    + rewrite IH. split.
      * intros (i & j0 & Hi & Hd & Hbefore). exists (S i), j0.
        split; [exact Hi|]. rewrite Nat.add_succ_r. split; [exact Hd|].
        intros [|i'] n' j' Hlt Hi'.
        -- injection Hi' as _ <-. now rewrite Nat.add_0_r.
        -- rewrite Nat.add_succ_r. apply (Hbefore i' n' j'); [lia|exact Hi'].
      * intros (i & j0 & Hi & Hd & Hbefore). destruct i as [|i].
        -- injection Hi as _ <-. rewrite Nat.add_0_r in Hd. congruence.
        -- exists i, j0. split; [exact Hi|].
           rewrite Nat.add_succ_r in Hd. split; [exact Hd|].
           intros i' n' j' Hlt Hi'.
           specialize (Hbefore (S i') n' j' ltac:(lia) Hi').
           now rewrite Nat.add_succ_r in Hbefore.
Qed.

Lemma first_due_None (clock : nat → datetime) (k : nat) (items : odict Job) :
  first_due clock k items = None ↔
  ∀ (i : nat) n j, items !! i = Some (n, j) →
    due_at (clock (k + i)%nat) (job_state j) = false.
Proof.
  revert k. induction items as [|[n j] rest IH]; intros k; cbn [first_due].
  - split; [|reflexivity]. intros _ i n j Hi. discriminate.
  - destruct (due_at (clock k) (job_state j)) eqn:Hdue.
    + split; [discriminate|]. intros Hall.
      specialize (Hall 0%nat n j eq_refl). rewrite Nat.add_0_r in Hall. congruence.
    + rewrite IH. split.
      * intros Hall [|i] n' j' Hi.
        -- injection Hi as _ <-. now rewrite Nat.add_0_r.
        -- rewrite Nat.add_succ_r. now apply (Hall i n' j').
      * intros Hall i n' j' Hi. specialize (Hall (S i) n' j' Hi).
        now rewrite Nat.add_succ_r in Hall.
Qed.

(** *** The states of a manager *)

(** The registry holds one job per name. *)
Lemma reachable_one_job_per_name (σ : MgrCtx) :
  reachable σ → NoDup (map fst (jobs (mgr σ))).
Proof.
  induction 1 as [config e | σ job now _ IH | σ now name kwargs _ IH | σ clock _ IH].
  - apply NoDup_nil_2.
  - rewrite register_job_eval. now apply dict_set_NoDup.
  - destruct (dict_get name (jobs (mgr σ))) as [j|] eqn:Hg.
    + rewrite (handle_job_known _ _ _ _ j Hg). now apply dict_set_NoDup.
    + now rewrite (handle_job_unknown _ _ _ _ Hg).
  - now rewrite get_recurring_job_eval.
Qed.

(** C6, as amended. [get_recurring_job] returns, changing neither the
    manager nor any job: the name of the first job, in the order of the
    registry, whose [is_due] is true when asked, or [None] when no job is
    due.  The order of the registry is the order of registration: a new
    name goes last, a name registered again keeps its place.  Called
    again at the same clock readings it returns the same result. *)
Theorem get_recurring_job_first_due (clock : nat → datetime) (σ : MgrCtx) :
  reachable σ →
  ∃ r,
    get_recurring_job clock σ = (Returned r, σ)
    ∧ (∀ name,
         r = Some name ↔
         ∃ (i : nat) (j : Job),
           jobs (mgr σ) !! i = Some (name, j)
           ∧ due_at (clock i) (job_state j) = true
           ∧ ∀ (i' : nat) n' j', (i' < i)%nat → jobs (mgr σ) !! i' = Some (n', j') →
               due_at (clock i') (job_state j') = false)
    ∧ (r = None ↔
       ∀ (i : nat) n j, jobs (mgr σ) !! i = Some (n, j) →
         due_at (clock i) (job_state j) = false)
    ∧ get_recurring_job clock (snd (get_recurring_job clock σ)) = get_recurring_job clock σ
    ∧ ∀ job now,
        map fst (jobs (mgr (snd (register_job job now σ))))
        = if dict_contains (cls_name job) (jobs (mgr σ))
          then map fst (jobs (mgr σ))
          else (map fst (jobs (mgr σ)) ++ [cls_name job])%list.
Proof.
  intros Hreach. pose proof (reachable_one_job_per_name σ Hreach) as Hd.
  exists (first_due clock 0 (jobs (mgr σ))).
  split; [now apply get_recurring_job_eval|].
  split; [intros name; apply (first_due_Some clock 0)|].
  split; [apply (first_due_None clock 0)|].
  split.
  { rewrite (get_recurring_job_eval clock σ Hd). cbn [snd].
    apply get_recurring_job_eval, Hd. }
  intros job now. rewrite register_job_eval. apply dict_set_keys.
Qed.

Lemma led_manager_reachable : reachable led_manager.
Proof. apply reach_register, reach_init. Qed.

(** The LED job, registered at clock reading 0, asked two seconds later. *)
Lemma get_recurring_job_first_due_witness :
  get_recurring_job (λ _, 2000000) led_manager = (Returned (Some "LED"), led_manager).
Proof.
  destruct (get_recurring_job_first_due (λ _, 2000000) led_manager led_manager_reachable)
    as (r & Hrun & Hsome & _).
  rewrite Hrun. do 2 f_equal. apply Hsome.
  exists 0%nat, (new_job LEDJob 0).
  split; [reflexivity|]. split; [reflexivity|]. intros; lia.
Defined.

(** C6, as the claim states it, fails when time passes between the two
    calls: with the LED job (interval 1) registered at clock reading 0
    and no dispatch in between, a call one second later returns [None]
    and a call two seconds later returns "LED". *)
Lemma next_due_changes_with_the_clock :
  let first := get_recurring_job (λ _, 1000000) led_manager in
  let second := get_recurring_job (λ _, 2000000) (snd first) in
  first = (Returned None, led_manager)
  ∧ second = (Returned (Some "LED"), led_manager).
Proof. split; reflexivity. Qed.

(** C8. On a manager in any state it can reach, [register_job] returns
    and the registry still holds one job per name; the name of the class
    now reaches a fresh instance of that class, and every other name the
    job it reached before.  When the name was registered already, the
    registry has as many jobs as before and a warning is logged after
    the info record.  After any later dispatches the name still reaches
    an instance of that class, and a dispatch by that name runs it. *)
Theorem register_job_replaces
    (job : JobClass) (now : datetime) (σ : MgrCtx) (later : list (datetime * string * Kwargs)) :
  reachable σ →
  let name := cls_name job in
  let σ1 := snd (register_job job now σ) in
  let σ2 := snd (handle_jobs later σ1) in
  fst (register_job job now σ) = Returned tt
  ∧ NoDup (map fst (jobs (mgr σ1)))
  ∧ dict_get name (jobs (mgr σ1)) = Some (new_job job now)
  ∧ (∀ other, other ≠ name →
       dict_get other (jobs (mgr σ1)) = dict_get other (jobs (mgr σ)))
  ∧ (is_Some (dict_get name (jobs (mgr σ))) →
       length (jobs (mgr σ1)) = length (jobs (mgr σ))
       ∧ log (menv σ1)
         = (log (menv σ)
            ++ [mkLog INFO ("registering job " ++ name) None;
                mkLog WARNING ("overwriting job (during register) with name: " ++ name) None])%list)
  ∧ ∀ now' kwargs,
      ∃ j, dict_get name (jobs (mgr σ2)) = Some j
           ∧ job_class j = job
           ∧ handle_job now' name kwargs σ2
             = (Returned tt, dispatched now' name kwargs j σ2).
Proof.
  intros Hreach name σ1 σ2. subst σ1 σ2 name.
  rewrite register_job_eval. cbn [fst snd].
  split; [reflexivity|].
  split. { apply dict_set_NoDup. now apply reachable_one_job_per_name. }
  split; [apply dict_get_set_eq|].
  split. { intros other Hne. apply dict_get_set_ne. congruence. }
  split.
  - intros [j0 Hj0]. unfold registered, register_log, dict_contains.
    cbn [mgr jobs menv log]. rewrite Hj0. split; [|reflexivity].
    apply dict_set_length. unfold dict_contains. now rewrite Hj0.
  - intros now' kwargs.
    destruct (handle_jobs_keeps_class later (registered job now σ) (cls_name job)
                (new_job job now)) as (j & Hj & Hc).
    { apply dict_get_set_eq. }
    exists j. split; [exact Hj|]. split; [exact Hc|].
    now apply handle_job_known.
Qed.

(** A second class registered over the LED job; after a dispatch of
    "LED" and one of an unknown name, "LED" still reaches an instance of
    the second class. *)
Lemma register_job_replaces_witness :
  let σ1 := snd (register_job SecondLEDJob 7000000 led_manager) in
  let σ2 := snd (handle_jobs [(8000000, "LED", ∅); (9000000, "Nope", ∅)] σ1) in
  dict_get "LED" (jobs (mgr σ1)) = Some (new_job SecondLEDJob 7000000)
  ∧ length (jobs (mgr σ1)) = 1%nat
  ∧ ∃ j, dict_get "LED" (jobs (mgr σ2)) = Some j ∧ job_class j = SecondLEDJob.
Proof.
  intros σ1 σ2.
  destruct (register_job_replaces SecondLEDJob 7000000 led_manager
              [(8000000, "LED", ∅); (9000000, "Nope", ∅)] led_manager_reachable)
    as (_ & _ & Hnew & _ & Hover & Hlater).
  split; [exact Hnew|]. split.
  - destruct Hover as [Hlen _]; [now eexists|exact Hlen].
  - destruct (Hlater 0 ∅) as (j & Hj & Hc & _). now exists j.
Defined.


(** ** The model run on the specification's scenarios *)

(** The start request, three polls and a fourth: each poll publishes one
    record, the fourth finds the sequence exhausted, and the job is idle
    again with no interval while the board keeps the last record. *)
Example backup_scenario :
  let after n :=
    snd (handle_jobs
           ((1000000, "BackupRestore", backup_kwargs)
            :: map (λ k : nat, (Z.of_nat (k + 2) * 1000000, "BackupRestore", ∅)) (seq 0 n))
           backup_manager) in
  let job σ := job_state <$> dict_get "BackupRestore" (jobs (mgr σ)) in
  let topic σ := topics (board (menv σ)) !! "backup_restore" in
  (interval <$> job (after 0%nat)) = Some (Some 1)
  ∧ topic (after 1%nat) = Some (progress_record (VStr "running", (VStr "a", VStr "files"), VInt 10))
  ∧ topic (after 2%nat) = Some (progress_record (VStr "running", (VStr "b", VStr "files"), VInt 60))
  ∧ topic (after 3%nat) = Some (progress_record (VStr "done", (VStr "", VStr ""), VInt 100))
  ∧ job (after 4%nat) = Some {| interval := None; last_run := 5000000; iterator := None |}
  ∧ topic (after 4%nat) = topic (after 3%nat)
  ∧ messages (board (menv (after 4%nat))) = [].
Proof. repeat split; vm_compute; reflexivity. Qed.

(** A job whose body raises, dispatched through the manager: the call
    returns, the job has its new [last_run], and the log ends with the
    two error records. *)
Example raising_job_is_contained :
  let σ := snd (register_job (AbstractJob (Some 10)) 0
                  {| mgr := JobManager_init ∅; menv := idle_env |}) in
  let r := handle_job 60000000 "None" ∅ σ in
  fst r = Returned tt
  ∧ (last_run ∘ job_state <$> dict_get "None" (jobs (mgr (snd r)))) = Some 60000000
  ∧ drop 2 (log (menv (snd r)))
    = [ mkLog ERROR "failed running job: None" None;
        mkLog ERROR "EXC" (Some NotImplementedError) ].
Proof. repeat split. Qed.

(** * Further properties of the scheduling core *)

(** ** [BaseJob.is_due] on a clock that was set back *)

(** X1. When the wall clock reads up to one second less than [last_run]
    (it was set back), the [seconds] field of the difference is 86399:
    [is_due] returns true for every interval below 86399 and false for
    the others, and changes nothing. *)
Theorem is_due_after_clock_set_back (now : datetime) (c : JobCtx) (n : Z) :
  interval (self c) = Some n →
  last_run (self c) - us_per_second ≤ now < last_run (self c) →
  is_due now c = (Returned (n <? 86399), c).
Proof.
  intros Hi Hnow. rewrite is_due_pure. unfold due_at, dt_sub. rewrite Hi.
  replace (now - last_run (self c))
    with ((-1 * seconds_per_day + 86399) * us_per_second
          + (now - last_run (self c) + us_per_second))
    by (unfold seconds_per_day, us_per_second; lia).
  rewrite seconds_of_parts.
  - now rewrite Z.gtb_ltb.
  - unfold seconds_per_day; lia.
  - unfold us_per_second in *; lia.
Qed.

(** The LED job, created at second 10, asked when the clock reads half
    a second less. *)
Lemma is_due_after_clock_set_back_witness :
  let c := {| self := BaseJob_init (Some 1) 10000000; env := idle_env |} in
  is_due 9500000 c = (Returned true, c).
Proof.
  intros c. apply (is_due_after_clock_set_back 9500000 c 1).
  - reflexivity.
  - cbn. unfold us_per_second. lia.
Defined.

(** ** [BackupRestoreJob] over several calls *)

Section BackupRestoreLife.

Variables full_export full_import : Value → Iterator.

Local Abbreviation _run := (BackupRestoreJob__run full_export full_import).
Local Abbreviation BRJob := (BackupRestoreJob full_export full_import).

Lemma in_backup_restore_true (m : Value) :
  in_backup_restore m = true → m = VStr "backup" ∨ m = VStr "restore".
Proof.
  unfold in_backup_restore.
  intros [H%bool_decide_eq_true | H%bool_decide_eq_true]%orb_prop; auto.
Qed.


Lemma _run_keeps_idle_or_polled (config : Cfg) (kwargs : Kwargs) (c : JobCtx) :
  idle_or_polled (self c) → idle_or_polled (self (snd (_run config kwargs c))).
Proof.
  unfold idle_or_polled. intros Hinv.
  destruct (iterator (self c)) as [[|r rest]|] eqn:Hit.
  - rewrite _run_exhausted by assumption. left. split; reflexivity.
  - rewrite (_run_pull _ _ _ _ _ r rest) by assumption. right. cbn.
    split; [eauto|]. destruct Hinv as [[? _]|[_ ?]]; [discriminate|assumption].
  - assert (interval (self c) = None) as Hint.
    { destruct Hinv as [[_ ?]|[[? ?] _]]; [assumption|discriminate]. }
    destruct (kwargs !! "tar_path") as [p|] eqn:Hp;
      [|rewrite _run_missing_args by auto; left; cbn; auto].
    destruct (kwargs !! "mode") as [m|] eqn:Hm;
      [|rewrite _run_missing_args by auto; left; cbn; auto].
    destruct (in_backup_restore m) eqn:Hin.
    + rewrite (_run_start _ _ _ _ _ p m Hit Hp Hm (in_backup_restore_true m Hin)).
      right. cbn. split; [eauto|reflexivity].
    + assert (in_backup_restore (dict_get_default "mode" kwargs) = false) as Hbad
        by (unfold dict_get_default; now rewrite Hm).
      rewrite _run_bad_mode by eauto. left. cbn. auto.
Qed.

(** X2. While an operation is in progress (an iterator is present),
    [_run] does not look at its arguments or at the configuration: a
    second start request, valid or not, is one more poll. *)
Theorem backup_restore_ignores_args_while_running
    (config config' : Cfg) (kwargs kwargs' : Kwargs) (c : JobCtx) :
  is_Some (iterator (self c)) →
  _run config kwargs c = _run config' kwargs' c.
Proof.
  intros [[|r rest] Hit].
  - now rewrite !_run_exhausted.
  - now rewrite !(_run_pull _ _ _ _ _ r rest).
Qed.


Lemma run_keeps_idle_or_polled (now : datetime) (config : Cfg) (kwargs : Kwargs) (c : JobCtx) :
  idle_or_polled (self c) → idle_or_polled (self (snd (run BRJob now config kwargs c))).
Proof.
  intros Hinv. rewrite run_self. cbn [cls_run BackupRestoreJob].
  now apply _run_keeps_idle_or_polled.
Qed.

(** X4. Between calls the backup job is either idle with no interval,
    or has an operation in progress and the interval 1: this holds for
    a new job and after every sequence of [run] calls, whatever their
    arguments.  So the job is offered by the poll only while an
    operation is in progress. *)
Theorem backup_restore_polled_iff_in_progress
    (calls : list (datetime * Cfg * Kwargs)) (c : JobCtx) :
  idle_or_polled (self c) →
  let c' := after_runs BRJob calls c in
  idle_or_polled (self c')
  ∧ (iterator (self c') = None → ∀ t, is_due t c' = (Returned false, c')).
Proof.
  intros Hinv c'. subst c'.
  assert (idle_or_polled (self (after_runs BRJob calls c))) as Hafter.
  { revert c Hinv. induction calls as [|[[now config] kwargs] rest IH]; intros c Hinv.
    - exact Hinv.
    - cbn [after_runs fold_left]. apply IH. now apply run_keeps_idle_or_polled. }
  split; [exact Hafter|].
  intros Hnone t. apply is_due_no_interval.
  destruct Hafter as [[_ ?]|[[x Hx] _]]; [assumption|congruence].
Qed.

Local Abbreviation poll := (polls full_export full_import).

(** What [k + 1] polls do to a job whose sequence still has a [k]-th
    record: that record is on the board and the sequence stands after it. *)
Lemma polls_reach (config : Cfg) (kwargs : Kwargs) (k : nat) (c : JobCtx) (l : Iterator)
    (r : ProgressRecord) :
  iterator (self c) = Some l → l !! k = Some r →
  let c' := poll config kwargs (S k) c in
  iterator (self c') = Some (drop (S k) l)
  ∧ backup_topic c' = Some (progress_record r)
  ∧ interval (self c') = interval (self c)
  ∧ messages (board (env c')) = messages (board (env c)).
Proof.
  revert c l. induction k as [|k IH]; intros c l Hit Hk.
  - destruct l as [|r0 rest]; [discriminate|]. injection Hk as ->.
    cbn [polls]. rewrite (_run_pull _ _ _ _ _ r rest Hit). cbn [snd].
    repeat split. apply lookup_insert_eq.
  - destruct l as [|r0 rest]; [discriminate|]. cbn in Hk.
    change (poll config kwargs (S (S k)) c)
      with (poll config kwargs (S k) (snd (_run config kwargs c))).
    rewrite (_run_pull _ _ _ _ _ r0 rest Hit). cbn [snd].
    destruct (IH (on_env (on_board (board_set "backup_restore" (progress_record r0)))
                    (set_iterator (Some rest) c)) rest eq_refl Hk)
      as (H1 & H2 & H3 & H4).
    repeat split; assumption.
Qed.

(** As many polls as the sequence has records leave it exhausted but
    still in place, with the board's queue untouched. *)
Lemma polls_exhaust (config : Cfg) (kwargs : Kwargs) (c : JobCtx) (l : Iterator) :
  iterator (self c) = Some l →
  let c' := poll config kwargs (length l) c in
  iterator (self c') = Some []
  ∧ interval (self c') = interval (self c)
  ∧ messages (board (env c')) = messages (board (env c)).
Proof.
  revert c. induction l as [|r rest IH]; intros c Hit.
  - cbn. auto.
  - cbn [length polls]. rewrite (_run_pull _ _ _ _ _ r rest Hit). cbn [snd].
    destruct (IH (on_env (on_board (board_set "backup_restore" (progress_record r)))
                    (set_iterator (Some rest) c)) eq_refl) as (H1 & H2 & H3).
    repeat split; assumption.
Qed.

Lemma polls_succ (config : Cfg) (kwargs : Kwargs) (n : nat) (c : JobCtx) :
  poll config kwargs (S n) c = snd (_run config kwargs (poll config kwargs n c)).
Proof.
  revert c. induction n as [|n IH]; intros c; [reflexivity|].
  change (poll config kwargs (S (S n)) c)
    with (poll config kwargs (S n) (snd (_run config kwargs c))).
  now rewrite IH.
Qed.

(** X5. A whole operation.  After an accepted start request whose
    sequence holds the records [records], the [k + 1]-th further call
    publishes the [k]-th record, one record a call and in order; after
    as many calls as there are records the sequence is exhausted but
    the job still polled; the next call makes the job idle with no
    interval and leaves the board at the last record published.  No
    call puts a message on the board's queue. *)
Theorem backup_restore_drains
    (config : Cfg) (kwargs kwargs' : Kwargs) (c : JobCtx) (p m : Value) (records : Iterator) :
  iterator (self c) = None →
  kwargs !! "tar_path" = Some p →
  kwargs !! "mode" = Some m →
  m = VStr "backup" ∨ m = VStr "restore" →
  records = (if bool_decide (m = VStr "backup") then full_export p else full_import p) →
  let c1 := snd (_run config kwargs c) in
  let after n := poll config kwargs' n c1 in
  (∀ k r, records !! k = Some r →
     backup_topic (after (S k)) = Some (progress_record r)
     ∧ iterator (self (after (S k))) = Some (drop (S k) records)
     ∧ interval (self (after (S k))) = Some 1)
  ∧ iterator (self (after (length records))) = Some []
  ∧ interval (self (after (length records))) = Some 1
  ∧ iterator (self (after (S (length records)))) = None
  ∧ interval (self (after (S (length records)))) = None
  ∧ board (env (after (S (length records)))) = board (env (after (length records)))
  ∧ (∀ n, (n ≤ S (length records))%nat →
       messages (board (env (after n))) = messages (board (env c))).
Proof.
  intros Hit Hp Hm Hmode Hrec c1 after. subst c1 after. cbv beta.
  rewrite (_run_start _ _ _ _ _ p m Hit Hp Hm Hmode). cbn [snd].
  set (c1 := started full_export full_import p m c).
  assert (iterator (self c1) = Some records) as Hit1 by (now rewrite Hrec).
  assert (interval (self c1) = Some 1) as Hint1 by reflexivity.
  assert (messages (board (env c1)) = messages (board (env c))) as Hmsg1 by reflexivity.
  destruct (polls_exhaust config kwargs' c1 records Hit1) as (HitN & HintN & HmsgN).
  assert (_run config kwargs' (poll config kwargs' (length records) c1)
          = (Returned tt, set_interval None
                            (set_iterator None (poll config kwargs' (length records) c1))))
    as Hlast by (now apply _run_exhausted).
  split; [|split; [exact HitN|split; [congruence|]]].
  { intros k r Hk.
    destruct (polls_reach config kwargs' k c1 records r Hit1 Hk) as (H1 & H2 & H3 & _).
    split; [exact H2|]. split; [exact H1|congruence]. }
  rewrite polls_succ, Hlast. cbn [snd].
  split; [reflexivity|]. split; [reflexivity|]. split; [reflexivity|].
  intros n Hn.
  destruct (decide (n = S (length records))) as [->|Hne].
  - rewrite polls_succ, Hlast. cbn. congruence.
  - destruct n as [|n]; [exact Hmsg1|].
    destruct (lookup_lt_is_Some_2 records n ltac:(lia)) as [r Hr].
    destruct (polls_reach config kwargs' n c1 records r Hit1 Hr) as (_ & _ & _ & H4).
    congruence.
Qed.

End BackupRestoreLife.

(** ** The manager's loop: poll, dispatch, poll *)

Lemma dict_set_middle {V} (k : string) (v v0 : V) (pre post : odict V) :
  k ∉ map fst pre →
  dict_set k v (pre ++ (k, v0) :: post) = (pre ++ (k, v) :: post)%list.
Proof.
  induction pre as [|[k' v'] pre IH]; cbn [map fst app dict_set]; intros Hk.
  - now rewrite decide_True.
  - apply not_elem_of_cons in Hk as [Hne Hk].
    rewrite decide_False by assumption. now rewrite IH.
Qed.

Lemma dict_split {V} (d : odict V) (i : nat) (k : string) (v : V) :
  NoDup (map fst d) → d !! i = Some (k, v) →
  d = (take i d ++ (k, v) :: drop (S i) d)%list ∧ k ∉ map fst (take i d).
Proof.
  intros Hd Hi. split; [symmetry; now apply take_drop_middle|].
  rewrite <- (take_drop_middle d i (k, v) Hi) in Hd.
  rewrite map_app in Hd. apply NoDup_app in Hd as (_ & Hdisj & _).
  intros Hin. apply (Hdisj k Hin). cbn. left.
Qed.

(** With every job asked at the same clock reading, the count of the
    jobs asked before does not matter. *)
Lemma first_due_const (t : datetime) (k k' : nat) (items : odict Job) :
  first_due (λ _, t) k items = first_due (λ _, t) k' items.
Proof.
  revert k k'. induction items as [|[n j] rest IH]; intros k k'; [reflexivity|].
  cbn [first_due]. destruct (due_at t (job_state j)); [reflexivity|apply IH].
Qed.

Lemma first_due_skip (t : datetime) (pre post : odict Job) :
  (∀ n j, (n, j) ∈ pre → due_at t (job_state j) = false) →
  first_due (λ _, t) 0 (pre ++ post) = first_due (λ _, t) 0 post.
Proof.
  induction pre as [|[n j] pre IH]; intros Hpre; [reflexivity|].
  cbn [app first_due]. rewrite (Hpre n j) by left.
  rewrite (first_due_const t 1 0). apply IH.
  intros n' j' Hin. apply (Hpre n' j'). now right.
Qed.

(** A job that has just been run at [now], whose body kept [last_run]
    and left an interval that is not negative, is not due at [now]. *)
Lemma not_due_right_after_run (cls : JobClass) (now : datetime) (config : Cfg)
    (kwargs : Kwargs) (c : JobCtx) :
  keeps_last_run cls →
  (∀ n, interval (self (snd (run cls now config kwargs c))) = Some n → 0 ≤ n) →
  due_at now (self (snd (run cls now config kwargs c))) = false.
Proof.
  intros Hk Hn.
  assert (last_run (self (snd (run cls now config kwargs c))) = now) as Hlr.
  { rewrite run_self, Hk. reflexivity. }
  apply not_due_within_interval; rewrite Hlr; [lia|].
  intros n Hi. specialize (Hn n Hi). unfold us_per_second. lia.
Qed.

(** X6. Polling and dispatching at one clock reading goes down the
    registry.  When the poll at [now] returns [name] and that job is
    dispatched at [now] (its body keeps [last_run] and leaves no
    negative interval), the next poll at [now] returns the first due
    job among those registered after [name], and so never [name]
    again: one failing or slow job cannot keep the others from being
    offered. *)
Theorem poll_moves_past_dispatched_job
    (now : datetime) (name : string) (kwargs : Kwargs) (σ : MgrCtx) (j : Job) :
  reachable σ →
  dict_get name (jobs (mgr σ)) = Some j →
  get_recurring_job (λ _, now) σ = (Returned (Some name), σ) →
  keeps_last_run (job_class j) →
  (∀ n, interval (self (snd (run (job_class j) now (cfg (mgr σ)) kwargs
                               {| self := job_state j; env := menv σ |}))) = Some n → 0 ≤ n) →
  let σ' := snd (handle_job now name kwargs σ) in
  ∃ (i : nat) r,
    jobs (mgr σ) !! i = Some (name, j)
    ∧ get_recurring_job (λ _, now) σ' = (Returned r, σ')
    ∧ r = first_due (λ _, now) 0 (drop (S i) (jobs (mgr σ)))
    ∧ r ≠ Some name.
Proof.
  intros Hreach Hget Hpoll Hkeep Hint σ'.
  pose proof (reachable_one_job_per_name σ Hreach) as Hd.
  assert (reachable σ') as Hreach' by (now apply reach_handle).
  pose proof (reachable_one_job_per_name σ' Hreach') as Hd'.
  rewrite (get_recurring_job_eval _ _ Hd) in Hpoll. injection Hpoll as Hpoll.
  apply (first_due_Some (λ _, now) 0) in Hpoll as (i & j0 & Hi & Hdue & Hbefore).
  assert (j0 = j) as ->.
  { apply list_elem_of_lookup_2 in Hi. apply (dict_get_item _ _ _ Hd) in Hi. congruence. }
  destruct (dict_split _ _ _ _ Hd Hi) as [Hsplit Hfresh].
  exists i, (first_due (λ _, now) 0 (drop (S i) (jobs (mgr σ)))).
  split; [exact Hi|].
  assert (first_due (λ _, now) 0 (jobs (mgr σ'))
          = first_due (λ _, now) 0 (drop (S i) (jobs (mgr σ)))) as Hnext.
  { subst σ'. rewrite (handle_job_known _ _ _ _ j Hget). cbn [snd dispatched mgr jobs].
    rewrite Hsplit at 1. rewrite dict_set_middle by assumption.
    rewrite first_due_skip.
    - cbn [first_due job_state]. rewrite not_due_right_after_run by assumption.
      apply first_due_const.
    - intros n' j' Hin. apply list_elem_of_lookup_1 in Hin as [i' Hi'].
      pose proof (lookup_lt_Some _ _ _ Hi') as Hlt. rewrite length_take in Hlt.
      rewrite lookup_take_lt in Hi' by lia.
      apply (Hbefore i' n' j'); [lia|exact Hi']. }
  split; [rewrite get_recurring_job_eval by assumption; now rewrite Hnext|].
  split; [reflexivity|].
  intros Hsame. apply (first_due_Some (λ _, now) 0) in Hsame as (i' & j' & Hi' & _).
  apply list_elem_of_lookup_2 in Hi'.
  rewrite Hsplit in Hd. rewrite map_app in Hd. cbn [map fst] in Hd.
  apply NoDup_app in Hd as (_ & _ & Hpost). apply NoDup_cons in Hpost as [Hnotin _].
  apply Hnotin. apply list_elem_of_fmap. exists (name, j'). split; [reflexivity|exact Hi'].
Qed.

Lemma dict_set_map {V B} (f : string * V → B) (k : string) (v v0 : V) (d : odict V) :
  dict_get k d = Some v0 → f (k, v) = f (k, v0) →
  map f (dict_set k v d) = map f d.
Proof.
  intros Hg Hf. induction d as [|[k' v'] d IH]; [discriminate|].
  cbn [dict_get dict_set] in *. destruct (decide (k = k')) as [->|Hne].
  - injection Hg as ->. cbn [map]. now rewrite Hf.
  - cbn [map]. now rewrite IH.
Qed.

(** X7. A dispatch changes no more of the registry than the attributes
    of the job it runs: the names, their order, the class behind each
    name and the configuration are as before, whether the name is
    known or not and whether the job returns or raises. *)
Theorem handle_job_keeps_registry
    (now : datetime) (name : string) (kwargs : Kwargs) (σ : MgrCtx) :
  let σ' := snd (handle_job now name kwargs σ) in
  map fst (jobs (mgr σ')) = map fst (jobs (mgr σ))
  ∧ map (λ item, (item.1, job_class item.2)) (jobs (mgr σ'))
    = map (λ item, (item.1, job_class item.2)) (jobs (mgr σ))
  ∧ cfg (mgr σ') = cfg (mgr σ).
Proof.
  intros σ'. subst σ'.
  destruct (dict_get name (jobs (mgr σ))) as [j|] eqn:Hg.
  - rewrite (handle_job_known _ _ _ _ j Hg). cbn [snd dispatched mgr jobs cfg].
    split; [|split; [|reflexivity]].
    + now apply (dict_set_map fst _ _ j).
    + now apply (dict_set_map (λ item, (item.1, job_class item.2)) _ _ j).
  - rewrite (handle_job_unknown _ _ _ _ Hg). cbn. auto.
Qed.

Lemma reachable_handle_jobs (later : list (datetime * string * Kwargs)) (σ : MgrCtx) :
  reachable σ → reachable (snd (handle_jobs later σ)).
Proof.
  revert σ. induction later as [|[[now name] kwargs] rest IH]; intros σ Hr.
  - exact Hr.
  - rewrite handle_jobs_cons. apply IH. now apply reach_handle.
Qed.

Lemma run_one_shot (cls : JobClass) (now : datetime) (config : Cfg) (kwargs : Kwargs)
    (c : JobCtx) :
  one_shot cls → interval (self (snd (run cls now config kwargs c))) = None.
Proof. intros Hone. rewrite run_self. apply Hone. Qed.

Lemma handle_job_spends (now : datetime) (name : string) (kwargs : Kwargs) (σ : MgrCtx) (j : Job) :
  dict_get name (jobs (mgr σ)) = Some j → one_shot (job_class j) →
  spent name (snd (handle_job now name kwargs σ)).
Proof.
  intros Hg Hone. rewrite (handle_job_known _ _ _ _ j Hg). cbn [snd dispatched].
  eexists. cbn [mgr jobs]. split; [apply dict_get_set_eq|].
  cbn [job_class job_state]. split; [exact Hone|]. now apply run_one_shot.
Qed.

Lemma handle_job_keeps_spent (now : datetime) (name name' : string) (kwargs : Kwargs)
    (σ : MgrCtx) :
  spent name σ → spent name (snd (handle_job now name' kwargs σ)).
Proof.
  intros (j & Hg & Hone & Hint).
  destruct (decide (name' = name)) as [->|Hne]; [now apply (handle_job_spends _ _ _ _ j)|].
  destruct (dict_get name' (jobs (mgr σ))) as [j'|] eqn:Hg'.
  - rewrite (handle_job_known _ _ _ _ j' Hg'). exists j. cbn [snd dispatched mgr jobs].
    rewrite dict_get_set_ne by assumption. auto.
  - rewrite (handle_job_unknown _ _ _ _ Hg'). now exists j.
Qed.

(** X8. A job of a class whose body always leaves the interval at
    [None] (the LED job, the generic status update) is run by the poll
    loop once: after one dispatch of it the poll never returns its
    name again, at any clock readings and after any further dispatches,
    until it is registered anew. *)
Theorem one_shot_job_is_not_offered_again
    (now : datetime) (name : string) (kwargs : Kwargs) (σ : MgrCtx) (j : Job)
    (later : list (datetime * string * Kwargs)) (clock : nat → datetime) :
  reachable σ →
  dict_get name (jobs (mgr σ)) = Some j →
  one_shot (job_class j) →
  let σ' := snd (handle_jobs later (snd (handle_job now name kwargs σ))) in
  ∃ r, get_recurring_job clock σ' = (Returned r, σ') ∧ r ≠ Some name.
Proof.
  intros Hreach Hg Hone σ'.
  assert (spent name σ') as (j' & Hg' & _ & Hint).
  { subst σ'. pose proof (handle_job_spends now name kwargs σ j Hg Hone) as Hs.
    revert Hs. generalize (snd (handle_job now name kwargs σ)).
    induction later as [|[[t n] kw] rest IH]; intros σ1 Hs; [exact Hs|].
    rewrite handle_jobs_cons. apply IH. now apply handle_job_keeps_spent. }
  assert (NoDup (map fst (jobs (mgr σ')))) as Hd.
  { apply reachable_one_job_per_name. subst σ'.
    apply reachable_handle_jobs. now apply reach_handle. }
  exists (first_due clock 0 (jobs (mgr σ'))).
  split; [now apply get_recurring_job_eval|].
  intros (i & j0 & Hi & Hdue & _)%first_due_Some.
  apply list_elem_of_lookup_2 in Hi. apply (dict_get_item _ _ _ Hd) in Hi.
  assert (j0 = j') as -> by congruence.
  unfold due_at in Hdue. now rewrite Hint in Hdue.
Qed.

Lemma LEDJob_one_shot : one_shot LEDJob.
Proof. intros config kwargs c. reflexivity. Qed.

(** *** The properties on the examples *)

(** A second start request, for a restore of another file, while the
    backup of the example is in progress. *)
Lemma backup_restore_ignores_args_while_running_witness :
  BackupRestoreJob__run no_records no_records ∅
    {[ "tar_path" := VStr "/tmp/y.tar"; "mode" := VStr "restore" ]} running_job
  = BackupRestoreJob__run no_records no_records ∅ ∅ running_job.
Proof.
  apply (backup_restore_ignores_args_while_running no_records no_records).
  now eexists.
Defined.

(** A new backup job after a rejected request, a start and two polls. *)
Lemma backup_restore_polled_iff_in_progress_witness :
  let calls := [ (1000000, ∅, delete_kwargs); (2000000, ∅, backup_kwargs);
                 (3000000, ∅, ∅); (4000000, ∅, ∅) ] in
  let c' := after_runs (BackupRestoreJob (λ _, three_records) no_records) calls idle_job in
  idle_or_polled (self c')
  ∧ (iterator (self c') = None → ∀ t, is_due t c' = (Returned false, c')).
Proof.
  intros calls.
  apply (backup_restore_polled_iff_in_progress (λ _, three_records) no_records calls idle_job).
  left. split; reflexivity.
Defined.

(** The backup of the specification's example, from the start request
    to the call after the last record. *)
Lemma backup_restore_drains_witness :
  let c1 := snd (BackupRestoreJob__run (λ _, three_records) no_records ∅ backup_kwargs idle_job) in
  let after n := polls (λ _, three_records) no_records ∅ ∅ n c1 in
  backup_topic (after 2%nat)
  = Some (progress_record (VStr "running", (VStr "b", VStr "files"), VInt 60))
  ∧ iterator (self (after 3%nat)) = Some []
  ∧ iterator (self (after 4%nat)) = None
  ∧ interval (self (after 4%nat)) = None
  ∧ board (env (after 4%nat)) = board (env (after 3%nat)).
Proof.
  intros c1 after.
  destruct (backup_restore_drains (λ _, three_records) no_records ∅ backup_kwargs ∅ idle_job
              (VStr "/tmp/x.tar") (VStr "backup") three_records)
    as (Hpub & Hex & _ & Hit & Hint & Hboard & _);
    [reflexivity | reflexivity | reflexivity | now left | reflexivity |].
  split; [apply (Hpub 1%nat); reflexivity|].
  split; [exact Hex|]. split; [exact Hit|]. split; [exact Hint|exact Hboard].
Defined.

(** The LED job and the backup job of the example in one registry, the
    backup in progress: the poll at second 2 offers "LED"; after its
    dispatch the poll at second 2 offers "BackupRestore". *)
Lemma poll_moves_past_dispatched_job_witness :
  let σ := snd (handle_job 0 "BackupRestore" backup_kwargs
                  (snd (register_job (BackupRestoreJob (λ _, three_records) no_records) 0
                          led_manager))) in
  let σ' := snd (handle_job 2000000 "LED" ∅ σ) in
  get_recurring_job (λ _, 2000000) σ = (Returned (Some "LED"), σ)
  ∧ get_recurring_job (λ _, 2000000) σ' = (Returned (Some "BackupRestore"), σ').
Proof.
  intros σ σ'.
  assert (reachable σ) as Hreach
    by (apply reach_handle, reach_register, led_manager_reachable).
  assert (get_recurring_job (λ _, 2000000) σ = (Returned (Some "LED"), σ)) as Hpoll.
  { rewrite get_recurring_job_eval by (now apply reachable_one_job_per_name).
    reflexivity. }
  split; [exact Hpoll|].
  destruct (poll_moves_past_dispatched_job 2000000 "LED" ∅ σ (new_job LEDJob 0)
              Hreach eq_refl Hpoll LEDJob_keeps_last_run)
    as (i & r & _ & Hnext & Hr & _).
  - intros n Hn. discriminate Hn.
  - fold σ' in Hnext. rewrite Hnext. f_equal. f_equal.
    rewrite get_recurring_job_eval in Hnext
      by (apply reachable_one_job_per_name, reach_handle, Hreach).
    injection Hnext as <-. reflexivity.
Defined.

(** The LED job, dispatched once; then an unknown name and "LED" again
    are dispatched, and the poll comes a day later. *)
Lemma one_shot_job_is_not_offered_again_witness :
  let σ' := snd (handle_jobs [(3000000, "Nope", ∅); (4000000, "LED", ∅)]
                   (snd (handle_job 2000000 "LED" ∅ led_manager))) in
  ∃ r, get_recurring_job (λ _, 86400000000) σ' = (Returned r, σ') ∧ r ≠ Some "LED".
Proof.
  apply (one_shot_job_is_not_offered_again 2000000 "LED" ∅ led_manager (new_job LEDJob 0)).
  - exact led_manager_reachable.
  - reflexivity.
  - exact LEDJob_one_shot.
Defined.

(** * The other jobs *)

(** ** [str.strip] *)

Lemma py_lstrip_spec (s : string) :
  ∃ lead, s = lead +:+ py_lstrip s
          ∧ all_space lead = true
          ∧ starts_without_space (py_lstrip s).
Proof.
  induction s as [|a s (lead & Heq & Hlead & Hstart)].
  - exists "". repeat split.
  - cbn [py_lstrip]. destruct (is_space a) eqn:Ha.
    + exists (String a lead). split; [|split; [|exact Hstart]].
      * change (String a s = String a (lead +:+ py_lstrip s)). now rewrite <- Heq.
      * cbn [all_space]. now rewrite Ha, Hlead.
    + exists "". split; [reflexivity|]. split; [reflexivity|exact Ha].
Qed.

Lemma py_rstrip_spec (s : string) :
  ∃ trail, s = py_rstrip s +:+ trail
           ∧ all_space trail = true
           ∧ ends_without_space (py_rstrip s).
Proof.
  induction s as [|a s (trail & Heq & Htrail & Hend)].
  - exists "". repeat split. now left.
  - cbn [py_rstrip]. destruct (py_rstrip s) as [|b r] eqn:Hr.
    + change (s = trail) in Heq. subst trail. destruct (is_space a) eqn:Ha.
      * exists (String a s). split; [reflexivity|]. split; [|now left].
        cbn [all_space]. now rewrite Ha, Htrail.
      * exists s. split; [reflexivity|]. split; [assumption|].
        right. now exists "", a.
    + exists trail. split; [|split; [assumption|]].
      * change (String a s = String a (String b r +:+ trail)). now rewrite <- Heq.
      * right. destruct Hend as [?|(pre & a0 & Hpre & Ha0)]; [discriminate|].
        exists (String a pre), a0. split; [|assumption].
        change (String a (String b r) = String a (pre +:+ String a0 "")).
        now rewrite Hpre.
Qed.

Lemma py_rstrip_start (s : string) :
  starts_without_space s → starts_without_space (py_rstrip s).
Proof.
  destruct s as [|a s]; [auto|]. cbn [py_rstrip starts_without_space]. intros Ha.
  destruct (py_rstrip s); [now rewrite Ha|exact Ha].
Qed.

(** [strip] takes the white space off both ends and nothing else. *)
Lemma py_strip_spec (s : string) :
  ∃ lead trail,
    s = lead +:+ py_strip s +:+ trail
    ∧ all_space lead = true
    ∧ all_space trail = true
    ∧ starts_without_space (py_strip s)
    ∧ ends_without_space (py_strip s).
Proof.
  destruct (py_lstrip_spec s) as (lead & Hl & Hlead & Hstart).
  destruct (py_rstrip_spec (py_lstrip s)) as (trail & Hr & Htrail & Hend).
  exists lead, trail. unfold py_strip.
  split; [now rewrite <- Hr|]. split; [assumption|]. split; [assumption|].
  split; [now apply py_rstrip_start|assumption].
Qed.

(** ** [GenericStatusUpdateJob] and [HardwareStatusUpdateJob] *)

Lemma GenericStatusUpdateJob_one_shot (apt_installed_version : Value → outcome Value) :
  one_shot (GenericStatusUpdateJob apt_installed_version).
Proof.
  intros config kwargs c. cbn [cls_run GenericStatusUpdateJob].
  unfold GenericStatusUpdateJob__run, getitem_cfg, getitem, external. eff_simpl.
  destruct (config !! "config") as [section|]; eff_simpl; [|reflexivity].
  destruct (section !! "debian_package") as [pkg|]; eff_simpl; [|reflexivity].
  destruct (apt_installed_version pkg) as [version|e]; eff_simpl; reflexivity.
Qed.

(** X9. [GenericStatusUpdateJob._run] first sets the interval to
    [None], so it is left at [None] however the call ends, and touches
    no other attribute and not the message queue.  Without the key
    [debian_package] in the section [config] it raises a [KeyError] and
    writes nothing.  With the key it returns: when the package lookup
    gives a version the topic "pkginfo" is set to exactly that version
    and the package name and nothing is logged; when the lookup raises,
    the board is as before and one error record carrying the exception
    is logged. *)
Theorem generic_status_update_cases
    (apt_installed_version : Value → outcome Value)
    (config : Cfg) (kwargs : Kwargs) (c : JobCtx) :
  let r := GenericStatusUpdateJob__run apt_installed_version config kwargs c in
  interval (self (snd r)) = None
  ∧ last_run (self (snd r)) = last_run (self c)
  ∧ iterator (self (snd r)) = iterator (self c)
  ∧ messages (board (env (snd r))) = messages (board (env c))
  ∧ match config !! "config" ≫= (λ section : PyDict, section !! "debian_package") with
    | None => (∃ k, fst r = Raised (KeyError k)) ∧ env (snd r) = env c
    | Some pkg =>
        fst r = Returned tt
        ∧ match apt_installed_version pkg with
          | Returned version =>
              topics (board (env (snd r)))
              = <["pkginfo" := {[ "version" := version; "pkg" := pkg ]}]>
                  (topics (board (env c)))
              ∧ log (env (snd r)) = log (env c)
          | Raised e =>
              board (env (snd r)) = board (env c)
              ∧ log (env (snd r))
                = (log (env c)
                   ++ [mkLog ERROR ("failed getting pkg-info for: " ++ py_str pkg) (Some e)])%list
          end
    end.
Proof.
  intros r. subst r.
  unfold GenericStatusUpdateJob__run, getitem_cfg, getitem, external. eff_simpl.
  destruct (config !! "config") as [section|]; cbn [mbind option_bind]; eff_simpl.
  2: { repeat split; eauto. }
  destruct (section !! "debian_package") as [pkg|]; eff_simpl.
  2: { repeat split; eauto. }
  destruct (apt_installed_version pkg) as [version|e]; eff_simpl;
    cbn [isinstance_Exception]; cbv beta iota; repeat split.
Qed.


(** X10. [HardwareStatusUpdateJob._run] changes no attribute of the
    job (it stays on its interval), logs nothing and queues no message.
    When the temperature file cannot be read it raises what the read
    raised and leaves everything as it was.  Otherwise it returns, and
    the topic "hwinfo" is set to the single field [temp]: the text of
    the file without the white space at its two ends, and with all the
    rest of it. *)
Theorem hardware_status_update_cases
    (read_text : string → outcome string) (config : Cfg) (kwargs : Kwargs) (c : JobCtx) :
  let r := HardwareStatusUpdateJob__run read_text config kwargs c in
  self (snd r) = self c
  ∧ log (env (snd r)) = log (env c)
  ∧ messages (board (env (snd r))) = messages (board (env c))
  ∧ match read_text temp_path with
    | Raised e => r = (Raised e, c)
    | Returned text =>
        fst r = Returned tt
        ∧ ∃ temp lead trail,
            topics (board (env (snd r)))
            = <["hwinfo" := {[ "temp" := VStr temp ]}]> (topics (board (env c)))
            ∧ text = lead +:+ temp +:+ trail
            ∧ all_space lead = true
            ∧ all_space trail = true
            ∧ starts_without_space temp
            ∧ ends_without_space temp
    end.
Proof.
  intros r. subst r. unfold HardwareStatusUpdateJob__run, external. eff_simpl.
  destruct (read_text temp_path) as [text|e]; eff_simpl.
  - split; [reflexivity|]. split; [reflexivity|]. split; [reflexivity|].
    split; [reflexivity|].
    destruct (py_strip_spec text) as (lead & trail & H1 & H2 & H3 & H4 & H5).
    exists (py_strip text), lead, trail.
    split; [reflexivity|]. split; [exact H1|]. repeat split; assumption.
  - repeat split.
Qed.

(** * [nextcloud.py] *)

(** ** Strings: append, [in], [join] and [split] *)

Lemma sapp_cons (a : Ascii.ascii) (x y : string) : String a x +:+ y = String a (x +:+ y).
Proof. reflexivity. Qed.

Lemma sapp_nil_l (y : string) : "" +:+ y = y.
Proof. reflexivity. Qed.

Lemma sapp_nil_r (s : string) : s +:+ "" = s.
Proof. induction s as [|a s IH]; [reflexivity|]. now rewrite sapp_cons, IH. Qed.

Lemma sapp_assoc (x y z : string) : (x +:+ y) +:+ z = x +:+ y +:+ z.
Proof. induction x as [|a x IH]; [reflexivity|]. now rewrite !sapp_cons, IH. Qed.

(** Two ways of cutting one string: one cut comes first. *)
Lemma sapp_eq_sapp (x1 y1 x2 y2 : string) :
  x1 +:+ y1 = x2 +:+ y2 →
  ∃ l, (x1 = x2 +:+ l ∧ y2 = l +:+ y1) ∨ (x2 = x1 +:+ l ∧ y1 = l +:+ y2).
Proof.
  revert x2. induction x1 as [|a x1 IH]; intros x2 Heq.
  - exists x2. right. auto.
  - destruct x2 as [|b x2].
    + exists (String a x1). left. auto.
    + rewrite ?sapp_cons, ?sapp_nil_l in Heq. injection Heq as -> Heq.
      destruct (IH x2 Heq) as (l & [[-> ->]|[-> ->]]); exists l; [left|right]; auto.
Qed.

Lemma has_char_sapp (a : Ascii.ascii) (x y : string) :
  has_char a (x +:+ y) = has_char a x || has_char a y.
Proof.
  induction x as [|b x IH]; [reflexivity|].
  rewrite sapp_cons. cbn [has_char]. now rewrite IH, orb_assoc.
Qed.

Lemma starts_with_spec (prefix s : string) :
  starts_with prefix s = true ↔ ∃ post, s = prefix +:+ post.
Proof.
  revert s. induction prefix as [|a prefix IH]; intros s.
  - split; [intros _; now exists s|reflexivity].
  - destruct s as [|b s]; cbn [starts_with].
    + split; [discriminate|]. intros [post Hpost]. discriminate.
    + rewrite andb_true_iff, bool_decide_eq_true, IH. split.
      * intros [-> [post ->]]. now exists post.
      * intros [post Hpost]. rewrite ?sapp_cons, ?sapp_nil_l in Hpost. injection Hpost as -> ->.
        split; [reflexivity|]. now exists post.
Qed.

(** [needle in s]: [needle] occurs somewhere in [s]. *)
Lemma str_contains_spec (needle s : string) :
  str_contains needle s = true ↔ ∃ pre post, s = pre +:+ needle +:+ post.
Proof.
  induction s as [|a s IH].
  - cbn [str_contains]. rewrite orb_false_r, starts_with_spec. split.
    + intros [post Hpost]. now exists "", post.
    + intros (pre & post & Heq). destruct pre; [now exists post|discriminate].
  - cbn [str_contains]. rewrite orb_true_iff, starts_with_spec, IH. split.
    + intros [[post Hpost]|(pre & post & ->)].
      * now exists "", post.
      * now exists (String a pre), post.
    + intros (pre & post & Heq). destruct pre as [|b pre].
      * left. now exists post.
      * right. rewrite ?sapp_cons, ?sapp_nil_l in Heq. injection Heq as -> ->. now exists pre, post.
Qed.

(** An occurrence of a word without the character [sep] in two strings
    joined by [sep] lies in one of the two. *)
Lemma str_contains_sep (sep : Ascii.ascii) (needle x y : string) :
  has_char sep needle = false → needle ≠ "" →
  str_contains needle (x +:+ String sep y)
  = str_contains needle x || str_contains needle y.
Proof.
  intros Hsep Hne. apply eq_true_iff_eq.
  rewrite orb_true_iff, !str_contains_spec. split.
  - intros (pre & post & Heq).
    apply sapp_eq_sapp in Heq as (l & [[-> Hl]|[-> Hl]]).
    + (* the occurrence starts before the cut of [x] *)
      apply sapp_eq_sapp in Hl as (l2 & [[-> Hl2]|[-> Hl2]]).
      * destruct l2 as [|b l2].
        -- left. exists pre, "". now rewrite !sapp_nil_r.
        -- rewrite ?sapp_cons, ?sapp_nil_l in Hl2. injection Hl2 as <- _.
           rewrite has_char_sapp in Hsep. cbn [has_char] in Hsep.
           rewrite bool_decide_eq_true_2 in Hsep by reflexivity.
           now rewrite orb_true_r in Hsep.
      * left. now exists pre, l2.
    + (* the occurrence starts after the cut of [x] *)
      destruct l as [|b l].
      * rewrite ?sapp_cons, ?sapp_nil_l in Hl. destruct needle as [|c needle]; [congruence|].
        rewrite ?sapp_cons, ?sapp_nil_l in Hl. injection Hl as <- _.
        cbn [has_char] in Hsep. rewrite bool_decide_eq_true_2 in Hsep by reflexivity.
        discriminate.
      * rewrite ?sapp_cons, ?sapp_nil_l in Hl. injection Hl as <- ->. right. now exists l, post.
  - intros [(pre & post & ->)|(pre & post & ->)].
    + exists pre, (post +:+ String sep y). now rewrite !sapp_assoc.
    + exists (x +:+ String sep pre), post. rewrite sapp_assoc. reflexivity.
Qed.

(** [needle in sep.join(lines)] is [any(needle in line for line in
    lines)] when [needle] is not empty and has no [sep] in it. *)
Lemma str_contains_join (sep : Ascii.ascii) (needle : string) (lines : list string) :
  has_char sep needle = false → needle ≠ "" →
  str_contains needle (String.concat (String sep "") lines)
  = existsb (str_contains needle) lines.
Proof.
  intros Hsep Hne. induction lines as [|x [|y rest] IH].
  - destruct needle; [congruence|reflexivity].
  - cbn [String.concat existsb]. now rewrite orb_false_r.
  - change (String.concat (String sep "") (x :: y :: rest))
      with (x +:+ String sep (String.concat (String sep "") (y :: rest))).
    rewrite str_contains_sep by assumption. now rewrite IH.
Qed.

(** ** [Nextcloud.run_cmd] and [Nextcloud.set_config] *)

Section NextcloudFacts.

Variable runner : list Command → Command → Z * list string.
Variable cr_log_output : Z → list string → list LogRecord.

Local Abbreviation run_cmd' := (run_cmd runner cr_log_output).

Lemma run_cmd_ok (args : Command) (w : World) (output : list string) :
  runner (w_occ w) (occ_cmd ++ args) = (0, output) →
  run_cmd' args w = (Ok (drop_last_two output), ran (occ_cmd ++ args) w).
Proof. intros Hr. unfold run_cmd. now rewrite Hr. Qed.

Lemma run_cmd_failed (args : Command) (w : World) (returncode : Z) (output : list string) :
  runner (w_occ w) (occ_cmd ++ args) = (returncode, output) → returncode ≠ 0 →
  run_cmd' args w
  = (Err (NextcloudError msg_occ_failed), failed cr_log_output returncode output (occ_cmd ++ args) w).
Proof.
  intros Hr Hne. unfold run_cmd. rewrite Hr.
  apply Z.eqb_neq in Hne. now rewrite Hne.
Qed.

(** Whatever the command does, [run_cmd] adds it to the commands run
    and touches neither the job nor the board. *)
Lemma run_cmd_frame (args : Command) (w : World) :
  let r := run_cmd' args w in
  w_occ (snd r) = (w_occ w ++ [occ_cmd ++ args])%list
  ∧ self (w_ctx (snd r)) = self (w_ctx w)
  ∧ board (env (w_ctx (snd r))) = board (env (w_ctx w)).
Proof.
  cbv zeta. unfold run_cmd.
  destruct (runner (w_occ w) (occ_cmd ++ args)) as [returncode output].
  destruct (negb (returncode =? 0)); repeat split.
Qed.

End NextcloudFacts.

Ltac effx_simpl :=
  unfold w_log in *;
  unfold mbind, mret, EffX_bind, EffX_ret, getsX, modifyX, raiseX, try_exceptX in *;
  cbv beta iota in *.

Section NextcloudSetConfig.

Variable runner : list Command → Command → Z * list string.
Variable cr_log_output : Z → list string → list LogRecord.

Local Abbreviation run_cmd' := (run_cmd runner cr_log_output).
Local Abbreviation set_config' := (set_config runner cr_log_output).

(** The loop over the items runs their commands in order and stops at
    the first that fails: [m] commands succeed. *)
Lemma set_config_items_spec (key : string) (items : list Value) (idx : nat) (w : World) :
  let r := set_config_items runner cr_log_output key idx items w in
  let cmds := set_item_cmds key idx items in
  ∃ m : nat,
    (∀ k cmd, (k < m)%nat → cmds !! k = Some cmd →
       fst (runner (w_occ w ++ take k cmds) cmd) = 0)
    ∧ self (w_ctx (snd r)) = self (w_ctx w)
    ∧ board (env (w_ctx (snd r))) = board (env (w_ctx w))
    ∧ ((fst r = Ok tt ∧ m = length items ∧ w_occ (snd r) = (w_occ w ++ cmds)%list)
       ∨ (fst r = Err (NextcloudError msg_occ_failed)
          ∧ w_occ (snd r) = (w_occ w ++ take (S m) cmds)%list
          ∧ ∃ cmd, cmds !! m = Some cmd
                   ∧ fst (runner (w_occ w ++ take m cmds) cmd) ≠ 0)).
Proof.
  revert idx w. induction items as [|item rest IH]; intros idx w; cbv zeta.
  - exists 0%nat. cbn [set_config_items set_item_cmds]. effx_simpl.
    split; [intros; lia|]. split; [reflexivity|]. split; [reflexivity|].
    left. cbn. now rewrite app_nil_r.
  - cbn [set_config_items set_item_cmds]. effx_simpl.
    set (c0 := set_item_cmd key idx item).
    destruct (runner (w_occ w) c0) as [returncode output] eqn:Hrun.
    destruct (decide (returncode = 0)) as [->|Hne].
    + rewrite (run_cmd_ok runner cr_log_output _ w output Hrun).
      change (occ_cmd ++ _)%list with c0.
      destruct (IH (S idx) (ran c0 w)) as (m & Hbefore & Hself & Hboard & Hend).
      exists (S m). split; [|split; [exact Hself|split; [exact Hboard|]]].
      * intros [|k] cmd Hk Hcmd.
        -- injection Hcmd as <-. cbn [take]. rewrite app_nil_r. now rewrite Hrun.
        -- cbn [take]. rewrite (cons_middle c0), app_assoc.
           apply (Hbefore k cmd); [lia|exact Hcmd].
      * cbn [ran w_occ] in Hend.
        destruct Hend as [(Hok & Hm & Hocc)|(Herr & Hocc & cmd & Hcmd & Hexit)].
        -- left. split; [exact Hok|]. split; [cbn; lia|].
           rewrite Hocc, <- app_assoc. reflexivity.
        -- right. split; [exact Herr|]. split.
           ++ rewrite Hocc, <- app_assoc. reflexivity.
           ++ exists cmd. split; [exact Hcmd|].
              cbn [take]. rewrite (cons_middle c0), app_assoc. exact Hexit.
    + rewrite (run_cmd_failed runner cr_log_output _ w returncode output Hrun Hne).
      change (occ_cmd ++ _)%list with c0.
      exists 0%nat. split; [intros; lia|]. split; [reflexivity|]. split; [reflexivity|].
      right. split; [reflexivity|]. split; [reflexivity|].
      exists c0. split; [reflexivity|]. cbn [take]. rewrite app_nil_r.
      rewrite Hrun. exact Hne.
Qed.

(** X11. [set_config] of a list key with a list of items and no index
    runs one [config:system:set] command an item, with the indices 0,
    1, 2, ... in order, and stops at the first command that fails:
    either all commands succeeded and it returns, or it raises
    [NextcloudError] after the failing command, the items before it
    written and the items after it not tried.  It touches neither the
    job nor the board. *)
Theorem set_config_list_stops_at_first_failure
    (key : string) (items : list Value) (w : World) :
  key ∈ config_list_keys →
  let r := set_config' key (Seq items) None w in
  let cmds := set_item_cmds key 0 items in
  ∃ m : nat,
    (∀ k cmd, (k < m)%nat → cmds !! k = Some cmd →
       fst (runner (w_occ w ++ take k cmds) cmd) = 0)
    ∧ self (w_ctx (snd r)) = self (w_ctx w)
    ∧ board (env (w_ctx (snd r))) = board (env (w_ctx w))
    ∧ ((fst r = Ok tt ∧ m = length items ∧ w_occ (snd r) = (w_occ w ++ cmds)%list)
       ∨ (fst r = Err (NextcloudError msg_occ_failed)
          ∧ w_occ (snd r) = (w_occ w ++ take (S m) cmds)%list
          ∧ ∃ cmd, cmds !! m = Some cmd
                   ∧ fst (runner (w_occ w ++ take m cmds) cmd) ≠ 0)).
Proof.
  intros Hkey. cbv zeta. unfold set_config.
  rewrite bool_decide_eq_true_2 by assumption. cbn [py_iter]. effx_simpl.
  apply set_config_items_spec.
Qed.

End NextcloudSetConfig.

Section NextcloudCommands.

Variable runner : list Command → Command → Z * list string.
Variable cr_log_output : Z → list string → list LogRecord.

Local Abbreviation run_cmd' := (run_cmd runner cr_log_output).
Local Abbreviation set_config' := (set_config runner cr_log_output).

(** X12. The other ways through [set_config].  A key that is in
    neither table raises [NextcloudError] naming the key, and no
    command is run: the state is as before.  A list key with an index
    runs the one command for that index, with the data as it is; a
    value key runs the one [--type string] command, the index unused. *)
Theorem set_config_single_or_none (key : string) (data : PyData) (idx : option Z) (w : World) :
  let r := set_config' key data idx w in
  (key ∉ config_list_keys → key ∉ config_value_keys →
     r = (Err (NextcloudError ("unknown key: " ++ key)), w))
  ∧ (key ∈ config_list_keys → ∀ i, idx = Some i →
       w_occ (snd r)
       = (w_occ w ++ [occ_cmd ++ [arg "config:system:set"; arg key; arg (pretty.pretty i);
                                  arg "--value"; data]])%list)
  ∧ (key ∈ config_value_keys →
       w_occ (snd r)
       = (w_occ w ++ [occ_cmd ++ [arg "config:system:set"; arg key; arg "--type";
                                  arg "string"; arg "--value"; data]])%list).
Proof.
  cbv zeta. unfold set_config. split; [|split].
  - intros Hl Hv. now rewrite !bool_decide_eq_false_2 by assumption.
  - intros Hl i ->. rewrite bool_decide_eq_true_2 by assumption. effx_simpl.
    pose proof (run_cmd_frame runner cr_log_output
                  [arg "config:system:set"; arg key; arg (pretty.pretty i); arg "--value"; data]
                  w) as (Hocc & _).
    destruct (run_cmd' _ w) as [[out|e] w']; exact Hocc.
  - intros Hv.
    assert (key ∉ config_list_keys) as Hl.
    { unfold config_value_keys, config_list_keys in *.
      repeat (apply elem_of_cons in Hv as [->|Hv]); try (now apply elem_of_nil in Hv);
        intros Hin; repeat (apply elem_of_cons in Hin as [Hin|Hin]; [discriminate|]);
        now apply elem_of_nil in Hin. }
    rewrite bool_decide_eq_false_2 by assumption.
    rewrite bool_decide_eq_true_2 by assumption. effx_simpl.
    pose proof (run_cmd_frame runner cr_log_output
                  [arg "config:system:set"; arg key; arg "--type"; arg "string";
                   arg "--value"; data] w) as (Hocc & _).
    destruct (run_cmd' _ w) as [[out|e] w']; exact Hocc.
Qed.

(** X13. [soft_reset] never returns a value.  It runs
    [maintenance:mode --off] and, when that succeeds, [app:disable
    mail]; when one of them fails it raises [NextcloudError], and when
    both succeed it raises [TypeError], for [&=] is applied to the two
    lists of output lines. *)
Theorem soft_reset_never_returns (w : World) :
  let off := (occ_cmd ++ [arg "maintenance:mode"; arg "--off"])%list in
  let disable := (occ_cmd ++ [arg "app:disable"; arg "mail"])%list in
  let r := soft_reset runner cr_log_output w in
  ∃ e, fst r = Err e
       ∧ match e with
         | NextcloudError _ =>
             (fst (runner (w_occ w) off) ≠ 0 ∧ w_occ (snd r) = (w_occ w ++ [off])%list)
             ∨ (fst (runner (w_occ w) off) = 0
                ∧ fst (runner (w_occ w ++ [off]) disable) ≠ 0
                ∧ w_occ (snd r) = (w_occ w ++ [off; disable])%list)
         | PyExc (TypeError _) =>
             fst (runner (w_occ w) off) = 0
             ∧ fst (runner (w_occ w ++ [off]) disable) = 0
             ∧ w_occ (snd r) = (w_occ w ++ [off; disable])%list
         | _ => False
         end.
Proof.
  cbv zeta. unfold soft_reset, set_maintenance_off, list_iand. effx_simpl.
  destruct (runner (w_occ w) (occ_cmd ++ [arg "maintenance:mode"; arg "--off"])%list)
    as [rc1 out1] eqn:H1.
  destruct (decide (rc1 = 0)) as [->|Hne1].
  - rewrite (run_cmd_ok runner cr_log_output _ w out1 H1).
    destruct (runner (w_occ w ++ [occ_cmd ++ [arg "maintenance:mode"; arg "--off"]])%list
                (occ_cmd ++ [arg "app:disable"; arg "mail"])%list) as [rc2 out2] eqn:H2.
    destruct (decide (rc2 = 0)) as [->|Hne2].
    + rewrite (run_cmd_ok runner cr_log_output _ (ran _ w) out2 H2).
      eexists. split; [reflexivity|]. cbn [fst snd ran w_occ].
      split; [reflexivity|]. split; [reflexivity|]. now rewrite <- app_assoc.
    + rewrite (run_cmd_failed runner cr_log_output _ (ran _ w) rc2 out2 H2 Hne2).
      eexists. split; [reflexivity|]. right. cbn [fst snd failed ran on_ctx w_occ].
      split; [reflexivity|]. split; [exact Hne2|]. now rewrite <- app_assoc.
  - rewrite (run_cmd_failed runner cr_log_output _ w rc1 out1 H1 Hne1).
    eexists. split; [reflexivity|]. left. cbn. auto.
Qed.

(** X14. [enable_nextbox_app] runs [app:enable nextbox] and raises
    [NextcloudError] when it fails.  Otherwise it returns whether the
    word "already" occurs in one of the output lines, the last two
    lines left out: joining the lines with spaces cannot make the word
    appear.  So it returns [False] for an app that this very call has
    enabled. *)
Theorem enable_nextbox_app_reports_already
    (w : World) (returncode : Z) (output : list string) :
  let cmd := (occ_cmd ++ [arg "app:enable"; arg "nextbox"])%list in
  let r := enable_nextbox_app runner cr_log_output w in
  runner (w_occ w) cmd = (returncode, output) →
  w_occ (snd r) = (w_occ w ++ [cmd])%list
  ∧ self (w_ctx (snd r)) = self (w_ctx w)
  ∧ board (env (w_ctx (snd r))) = board (env (w_ctx w))
  ∧ (returncode = 0 →
       r = (Ok (existsb (str_contains "already") (drop_last_two output)), ran cmd w))
  ∧ (returncode ≠ 0 → fst r = Err (NextcloudError msg_occ_failed)).
Proof.
  cbv zeta. intros Hrun. unfold enable_nextbox_app. effx_simpl.
  destruct (decide (returncode = 0)) as [->|Hne].
  - rewrite (run_cmd_ok runner cr_log_output _ w output Hrun).
    split; [reflexivity|]. split; [reflexivity|]. split; [reflexivity|].
    split; [|congruence]. intros _. do 2 f_equal.
    apply (str_contains_join chr_space); [reflexivity|discriminate].
  - rewrite (run_cmd_failed runner cr_log_output _ w returncode output Hrun Hne).
    split; [reflexivity|]. split; [reflexivity|]. split; [reflexivity|].
    split; [congruence|reflexivity].
Qed.

End NextcloudCommands.

(** ** [str.split] and [Nextcloud.get_version] *)

Lemma concat_two (sep x y : string) (l : list string) :
  String.concat sep (x :: y :: l) = x +:+ sep +:+ String.concat sep (y :: l).
Proof. reflexivity. Qed.

Lemma split_on_nonempty (sep : Ascii.ascii) (s : string) : split_on sep s ≠ [].
Proof.
  destruct s as [|a s]; [discriminate|]. cbn [split_on].
  destruct (bool_decide (a = sep)); [discriminate|].
  destruct (split_on sep s); discriminate.
Qed.

(** [sep.join(s.split(sep))] is [s]. *)
Lemma split_on_join (sep : Ascii.ascii) (s : string) :
  String.concat (String sep "") (split_on sep s) = s.
Proof.
  induction s as [|a s IH]; [reflexivity|]. cbn [split_on].
  pose proof (split_on_nonempty sep s) as Hne.
  destruct (split_on sep s) as [|p ps]; [congruence|].
  destruct (bool_decide (a = sep)) eqn:Ha.
  - apply bool_decide_eq_true in Ha as ->.
    rewrite concat_two, IH. reflexivity.
  - destruct ps as [|q qs].
    + cbn [String.concat] in *. now rewrite IH.
    + rewrite concat_two in *. rewrite sapp_cons. now rewrite IH.
Qed.

(** No part of a split holds the separator. *)
Lemma split_on_parts (sep : Ascii.ascii) (s : string) :
  Forall (λ part, has_char sep part = false) (split_on sep s).
Proof.
  induction s as [|a s IH]; [repeat constructor|]. cbn [split_on].
  destruct (bool_decide (a = sep)) eqn:Ha.
  - constructor; [reflexivity|exact IH].
  - apply bool_decide_eq_false in Ha.
    assert (bool_decide (sep = a) = false) as Hsep
      by (apply bool_decide_eq_false; congruence).
    destruct (split_on sep s) as [|p ps].
    + constructor; [|constructor]. cbn [has_char]. now rewrite Hsep.
    + apply Forall_cons in IH as [Hp Hps]. constructor; [|exact Hps].
      cbn [has_char]. now rewrite Hp, Hsep.
Qed.

Lemma split_on_no_sep (sep : Ascii.ascii) (s : string) :
  has_char sep s = false → split_on sep s = [s].
Proof.
  induction s as [|a s IH]; [reflexivity|]. cbn [has_char split_on].
  intros [Ha Hs]%orb_false_elim. rewrite (IH Hs).
  apply bool_decide_eq_false in Ha.
  rewrite bool_decide_eq_false_2 by congruence. reflexivity.
Qed.

(** [s.split(sep)[-1]] is what follows the last separator of [s], or
    [s] when it has none. *)
Lemma split_on_last (sep : Ascii.ascii) (s : string) :
  let tail := List.last (split_on sep s) "" in
  has_char sep tail = false
  ∧ (has_char sep s = false → tail = s)
  ∧ (has_char sep s = true → ∃ before, s = before +:+ String sep tail).
Proof.
  cbv zeta. induction s as [|a s (IHno & IHsame & IHcut)].
  - repeat split. discriminate.
  - pose proof (split_on_join sep s) as Hjoin.
    pose proof (split_on_nonempty sep s) as Hne.
    cbn [split_on has_char].
    destruct (split_on sep s) as [|p ps] eqn:Hsplit; [congruence|].
    destruct (bool_decide (a = sep)) eqn:Ha.
    + apply bool_decide_eq_true in Ha as ->.
      change (List.last ("" :: p :: ps) "") with (List.last (p :: ps) "").
      rewrite bool_decide_eq_true_2 by reflexivity. cbn [orb].
      split; [exact IHno|]. split; [discriminate|]. intros _.
      destruct (has_char sep s) eqn:Hs.
      * destruct (IHcut eq_refl) as [before ->]. now exists (String sep before).
      * rewrite (IHsame eq_refl). now exists "".
    + apply bool_decide_eq_false in Ha.
      rewrite bool_decide_eq_false_2 by congruence. cbn [orb].
      destruct ps as [|q qs].
      * cbn [List.last String.concat] in *. subst p.
        split; [cbn [has_char]; rewrite bool_decide_eq_false_2 by congruence; exact IHno|].
        split; [reflexivity|]. intros Hs. congruence.
      * change (List.last (String a p :: q :: qs) "") with (List.last (p :: q :: qs) "").
        split; [exact IHno|]. split.
        -- intros Hs. rewrite (split_on_no_sep sep s Hs) in Hsplit. discriminate.
        -- intros Hs. destruct (IHcut Hs) as [before ->]. now exists (String a before).
Qed.

Lemma str_contains_has_char (a : Ascii.ascii) (needle s : string) :
  str_contains needle s = true → has_char a needle = true → has_char a s = true.
Proof.
  intros (pre & post & ->)%str_contains_spec Ha.
  rewrite !has_char_sapp, Ha. now rewrite orb_true_r.
Qed.

Section NextcloudVersion.

Variable runner : list Command → Command → Z * list string.
Variable cr_log_output : Z → list string → list LogRecord.

(** X15. [get_version] runs [status] and raises [NextcloudError] when
    it fails.  Otherwise it looks for the first output line, the last
    two left out, that contains "- version:".  Without such a line it
    returns [False].  With one it returns the text after the last colon
    of that line, stripped of white space at its ends and split at the
    dots: at least one part, no part with a dot in it, and the parts
    joined by dots give the stripped text back. *)
Theorem get_version_parts (w : World) (returncode : Z) (output : list string) :
  let cmd := (occ_cmd ++ [arg "status"])%list in
  let r := get_version runner cr_log_output w in
  runner (w_occ w) cmd = (returncode, output) →
  w_occ (snd r) = (w_occ w ++ [cmd])%list
  ∧ (returncode ≠ 0 → fst r = Err (NextcloudError msg_occ_failed))
  ∧ (returncode = 0 →
       match List.find (str_contains "- version:") (drop_last_two output) with
       | None => fst r = Ok None
       | Some line =>
           ∃ parts before tail,
             fst r = Ok (Some parts)
             ∧ line = before +:+ String chr_colon tail
             ∧ has_char chr_colon tail = false
             ∧ String.concat (String chr_dot "") parts = py_strip tail
             ∧ Forall (λ part, has_char chr_dot part = false) parts
             ∧ parts ≠ []
       end).
Proof.
  cbv zeta. intros Hrun. unfold get_version. effx_simpl.
  destruct (decide (returncode = 0)) as [->|Hne].
  - rewrite (run_cmd_ok runner cr_log_output _ w output Hrun).
    split; [|split; [congruence|intros _]].
    { destruct (List.find _ _); reflexivity. }
    destruct (List.find (str_contains "- version:") (drop_last_two output))
      as [line|] eqn:Hfind; [|reflexivity].
    apply List.find_some in Hfind as [_ Hline].
    destruct (split_on_last chr_colon line) as (Hno & _ & Hcut).
    destruct Hcut as [before Hbefore].
    { apply (str_contains_has_char _ "- version:"); [exact Hline|reflexivity]. }
    eexists _, before, _. split; [reflexivity|]. split; [exact Hbefore|].
    split; [exact Hno|]. split; [apply split_on_join|].
    split; [apply split_on_parts|apply split_on_nonempty].
  - rewrite (run_cmd_failed runner cr_log_output _ w returncode output Hrun Hne).
    split; [reflexivity|]. split; [reflexivity|congruence].
Qed.

End NextcloudVersion.

(** ** [EnableNextBoxAppJob] and [TrustedDomainsJob] *)

Section NextcloudJobFacts.

Variable runner : list Command → Command → Z * list string.
Variable cr_log_output : Z → list string → list LogRecord.
Variable path_exists : string → bool.

Local Abbreviation enable_run := (EnableNextBoxAppJob__run runner cr_log_output path_exists).
Local Abbreviation td_run := (TrustedDomainsJob__run runner cr_log_output path_exists).
Local Abbreviation td_write := (TrustedDomainsJob__write runner cr_log_output).

(** X16. [EnableNextBoxAppJob._run] always returns, and touches neither
    the board nor [last_run].  While Nextcloud is not installed (the
    file [CAN_INSTALL] exists) it runs no command and keeps its
    interval.  Otherwise it runs [app:enable nextbox] once, and the
    interval becomes 3600 exactly when the command succeeds and an
    output line, the last two left out, contains "already"; in every
    other case, a failed command and a first successful enabling
    included, the interval stays as it was. *)
Theorem enable_nextbox_app_job_cases
    (config : Cfg) (kwargs : Kwargs) (w : World) (returncode : Z) (output : list string) :
  runner (w_occ w) enable_cmd = (returncode, output) →
  let r := enable_run config kwargs w in
  fst r = Ok tt
  ∧ board (env (w_ctx (snd r))) = board (env (w_ctx w))
  ∧ last_run (self (w_ctx (snd r))) = last_run (self (w_ctx w))
  ∧ (path_exists can_install_path = true →
       w_occ (snd r) = w_occ w
       ∧ interval (self (w_ctx (snd r))) = interval (self (w_ctx w)))
  ∧ (path_exists can_install_path = false →
       w_occ (snd r) = (w_occ w ++ [enable_cmd])%list
       ∧ interval (self (w_ctx (snd r)))
         = if (returncode =? 0) && existsb (str_contains "already") (drop_last_two output)
           then Some 3600
           else interval (self (w_ctx w))).
Proof.
  intros Hrun. cbv zeta.
  unfold EnableNextBoxAppJob__run, is_installed, enable_nextbox_app. effx_simpl.
  destruct (path_exists can_install_path); cbn [negb]; cbv beta iota.
  { repeat split; discriminate. }
  unfold enable_cmd in Hrun.
  destruct (decide (returncode = 0)) as [->|Hne].
  - rewrite (run_cmd_ok runner cr_log_output _ w output Hrun).
    rewrite (str_contains_join chr_space "already") by (reflexivity || discriminate).
    cbn [Z.eqb andb].
    destruct (existsb (str_contains "already") (drop_last_two output));
      cbv beta iota; repeat split; discriminate.
  - rewrite (run_cmd_failed runner cr_log_output _ w returncode output Hrun Hne).
    cbn [isinstance_NextcloudError]. apply Z.eqb_neq in Hne. rewrite Hne. cbn [andb].
    repeat split; discriminate.
Qed.

End NextcloudJobFacts.

Lemma existsb_negb {A} (f : A → bool) (l : list A) :
  existsb (λ x, negb (f x)) l = negb (forallb f l).
Proof.
  induction l as [|x l IH]; [reflexivity|]. cbn [existsb forallb].
  rewrite IH. now destruct (f x).
Qed.

Lemma truthy_get (k : string) (section : PyDict) :
  py_truthy (dict_get_default k section) = true →
  section !! k = Some (dict_get_default k section).
Proof.
  unfold dict_get_default. destruct (section !! k); [reflexivity|discriminate].
Qed.

Section TrustedDomainsFacts.

Variable runner : list Command → Command → Z * list string.
Variable cr_log_output : Z → list string → list LogRecord.
Variable path_exists : string → bool.

Local Abbreviation td_run := (TrustedDomainsJob__run runner cr_log_output path_exists).
Local Abbreviation td_write := (TrustedDomainsJob__write runner cr_log_output).
Local Abbreviation set_items := (set_config_items runner cr_log_output).

Lemma set_config_trusted (items : list Value) (w : World) :
  set_config runner cr_log_output "trusted_domains" (Seq items) None w
  = set_items "trusted_domains" 0 items w.
Proof.
  unfold set_config. rewrite bool_decide_eq_true_2 by (apply elem_of_cons; now left).
  reflexivity.
Qed.

(** The state after a failed write: the warning is logged and the
    interval is 15. *)
Lemma td_write_eval (config : Cfg) (first : string) (others : list string)
    (section : PyDict) (w : World) :
  config !! "config" = Some section →
  td_write config (first :: others) w
  = if forallb (λ entry, value_in entry (first :: others)) (wanted_entries first section)
    then (Ok None, w)
    else match set_items "trusted_domains" 0 (wanted_entries first section) w with
         | (Ok _, w') => (Ok None, w')
         | (Err e, w') =>
             if isinstance_NextcloudError e
             then (Ok None,
                   on_ctx (set_interval (Some 15))
                     (on_ctx (on_env (log_emit WARNING "failed to write all trusted_domains"
                                        None)) w'))
             else (Err e, w')
         end.
Proof.
  intros Hcfg. unfold TrustedDomainsJob__write, first_item, getitem_cfgX, getitemX, wanted_entries.
  rewrite Hcfg. effx_simpl.
  destruct (py_truthy (dict_get_default "domain" section)) eqn:Hdom;
    destruct (py_truthy (dict_get_default "proxy_active" section)
              && py_truthy (dict_get_default "proxy_domain" section)) eqn:Hproxy;
    cbv beta iota;
    try rewrite (truthy_get _ _ Hdom);
    try (apply andb_prop in Hproxy as Hboth; destruct Hboth as [_ Hpd];
         rewrite (truthy_get _ _ Hpd));
    cbv beta iota;
    rewrite existsb_negb;
    (match goal with
     | |- context [forallb ?f ?l] =>
         match goal with
         | |- _ = (if forallb f ?l' then _ else _) => change l' with l
         end
     end);
    (destruct (forallb _ _); cbn [negb]; cbv beta iota; [reflexivity|]);
    rewrite set_config_trusted;
    (destruct (set_items _ _ _ _) as [[[]|e] w']; [reflexivity|]);
    destruct (isinstance_NextcloudError e); reflexivity.
Qed.

(** What [_run] does up to the reading of the list. *)
Lemma td_run_not_installed (config : Cfg) (kwargs : Kwargs) (w : World) :
  path_exists can_install_path = true →
  td_run config kwargs w
  = (Ok (Some false),
     on_ctx (set_interval (Some 15))
       (on_ctx (on_env (log_emit DEBUG "cannot set trusted_domains - uninitialized nextcloud"
                          None))
          (on_ctx (set_interval (Some 900)) w))).
Proof.
  intros Hex. unfold TrustedDomainsJob__run, is_installed. effx_simpl.
  rewrite Hex. reflexivity.
Qed.

Lemma td_run_get_failed (config : Cfg) (kwargs : Kwargs) (w : World)
    (returncode : Z) (output : list string) :
  path_exists can_install_path = false →
  runner (w_occ w) get_trusted_cmd = (returncode, output) → returncode ≠ 0 →
  td_run config kwargs w
  = (Ok (Some false),
     on_ctx (set_interval (Some 15))
       (on_ctx (on_env (log_emit WARNING "cannot get trusted_domains from nextcloud" None))
          (failed cr_log_output returncode output get_trusted_cmd
             (on_ctx (set_interval (Some 900)) w)))).
Proof.
  intros Hex Hrun Hne. unfold TrustedDomainsJob__run, is_installed, get_config. effx_simpl.
  rewrite Hex. cbn [negb]. cbv beta iota.
  rewrite (run_cmd_failed runner cr_log_output _ (on_ctx (set_interval (Some 900)) w)
             returncode output Hrun Hne).
  reflexivity.
Qed.

Lemma td_run_get_ok (config : Cfg) (kwargs : Kwargs) (w : World) (output : list string) :
  path_exists can_install_path = false →
  runner (w_occ w) get_trusted_cmd = (0, output) →
  td_run config kwargs w
  = td_write config (drop_last_two output)
      (ran get_trusted_cmd (on_ctx (set_interval (Some 900)) w)).
Proof.
  intros Hex Hrun. unfold TrustedDomainsJob__run, is_installed, get_config. effx_simpl.
  rewrite Hex. cbn [negb]. cbv beta iota.
  rewrite (run_cmd_ok runner cr_log_output _ (on_ctx (set_interval (Some 900)) w)
             output Hrun).
  reflexivity.
Qed.

(** X17. The ways out of [TrustedDomainsJob._run] before it compares
    any entry.  While Nextcloud is not installed it runs no command,
    returns [False] and sets the interval to 15.  When reading the
    list fails it returns [False] with the interval 15.  When the
    command succeeds with no line left after the last two are dropped,
    [trusted_domains[0]] raises [IndexError]; when the configuration
    has no section [config] the lookup raises [KeyError]: in both
    cases only the reading command has run and the interval is 900. *)
Theorem trusted_domains_early_exits
    (config : Cfg) (kwargs : Kwargs) (w : World) (returncode : Z) (output : list string) :
  runner (w_occ w) get_trusted_cmd = (returncode, output) →
  let r := td_run config kwargs w in
  (path_exists can_install_path = true →
     fst r = Ok (Some false)
     ∧ w_occ (snd r) = w_occ w
     ∧ interval (self (w_ctx (snd r))) = Some 15)
  ∧ (path_exists can_install_path = false → returncode ≠ 0 →
       fst r = Ok (Some false)
       ∧ w_occ (snd r) = (w_occ w ++ [get_trusted_cmd])%list
       ∧ interval (self (w_ctx (snd r))) = Some 15)
  ∧ (path_exists can_install_path = false → returncode = 0 →
       drop_last_two output = [] →
       fst r = Err (IndexError "list index out of range")
       ∧ w_occ (snd r) = (w_occ w ++ [get_trusted_cmd])%list
       ∧ interval (self (w_ctx (snd r))) = Some 900)
  ∧ (path_exists can_install_path = false → returncode = 0 →
       drop_last_two output ≠ [] → config !! "config" = None →
       fst r = Err (PyExc (KeyError "config"))
       ∧ w_occ (snd r) = (w_occ w ++ [get_trusted_cmd])%list
       ∧ interval (self (w_ctx (snd r))) = Some 900).
Proof.
  intros Hrun. cbv zeta.
  split; [|split; [|split]].
  - intros Hex. rewrite (td_run_not_installed _ _ _ Hex). repeat split.
  - intros Hex Hne. rewrite (td_run_get_failed _ _ _ _ _ Hex Hrun Hne). repeat split.
  - intros Hex -> Hnil. rewrite (td_run_get_ok _ _ _ _ Hex Hrun), Hnil. repeat split.
  - intros Hex -> Hne Hcfg. rewrite (td_run_get_ok _ _ _ _ Hex Hrun).
    destruct (drop_last_two output) as [|first others]; [congruence|].
    unfold TrustedDomainsJob__write, first_item, getitem_cfgX. effx_simpl.
    rewrite Hcfg. repeat split.
Qed.

(** X18. The writing half of [TrustedDomainsJob._run].  With Nextcloud
    installed, the list read (its first line [first]) and a section
    [config], the job returns nothing and leaves the board alone.  The
    entries it wants are [first], the five static entries, the
    configured domain and the domain of an active proxy.  When the
    list read holds them all, no further command is run and the
    interval is 900.  When one is missing, all of them are written,
    one command an entry from index 0 on, up to the first command that
    fails: with none failing the interval is 900, otherwise the
    warning is logged, the rest is not written and the interval is
    15. *)
Theorem trusted_domains_writes_missing_entries
    (config : Cfg) (kwargs : Kwargs) (w : World) (output : list string)
    (first : string) (others : list string) (section : PyDict) :
  path_exists can_install_path = false →
  runner (w_occ w) get_trusted_cmd = (0, output) →
  drop_last_two output = first :: others →
  config !! "config" = Some section →
  let entries := wanted_entries first section in
  let cmds := set_item_cmds "trusted_domains" 0 entries in
  let r := td_run config kwargs w in
  fst r = Ok None
  ∧ board (env (w_ctx (snd r))) = board (env (w_ctx w))
  ∧ if forallb (λ entry, value_in entry (first :: others)) entries
    then w_occ (snd r) = (w_occ w ++ [get_trusted_cmd])%list
         ∧ interval (self (w_ctx (snd r))) = Some 900
    else ∃ m : nat,
        (∀ k cmd, (k < m)%nat → cmds !! k = Some cmd →
           fst (runner (w_occ w ++ get_trusted_cmd :: take k cmds) cmd) = 0)
        ∧ ((m = length entries
            ∧ w_occ (snd r) = (w_occ w ++ get_trusted_cmd :: cmds)%list
            ∧ interval (self (w_ctx (snd r))) = Some 900)
           ∨ (w_occ (snd r) = (w_occ w ++ get_trusted_cmd :: take (S m) cmds)%list
              ∧ interval (self (w_ctx (snd r))) = Some 15
              ∧ ∃ cmd, cmds !! m = Some cmd
                       ∧ fst (runner (w_occ w ++ get_trusted_cmd :: take m cmds) cmd) ≠ 0)).
Proof.
  intros Hex Hrun Hdrop Hcfg. cbv zeta.
  rewrite (td_run_get_ok _ _ _ _ Hex Hrun), Hdrop, (td_write_eval _ _ _ _ _ Hcfg).
  destruct (forallb _ _); [repeat split|].
  set (w1 := ran get_trusted_cmd (on_ctx (set_interval (Some 900)) w)).
  destruct (set_config_items_spec runner cr_log_output "trusted_domains"
              (wanted_entries first section) 0 w1)
    as (m & Hbefore & Hself & Hboard & Hend).
  assert (∀ l, (w_occ w1 ++ l = w_occ w ++ get_trusted_cmd :: l)%list) as Hocc1.
  { intros l. cbn [w1 ran w_occ on_ctx]. now rewrite <- app_assoc. }
  destruct (set_items "trusted_domains" 0 (wanted_entries first section) w1)
    as [[[]|e] w'] eqn:Hset; cbn [fst snd] in *.
  - destruct Hend as [(_ & Hm & Hocc)|(Herr & _)]; [|discriminate].
    split; [reflexivity|]. split; [exact Hboard|].
    exists m. split.
    + intros k cmd Hk Hcmd. rewrite <- Hocc1. now apply Hbefore.
    + left. split; [exact Hm|]. split; [now rewrite Hocc, Hocc1|now rewrite Hself].
  - destruct Hend as [(Hok & _)|(Herr & Hocc & cmd & Hcmd & Hexit)]; [discriminate|].
    injection Herr as ->. cbn [isinstance_NextcloudError fst snd].
    split; [reflexivity|]. split; [exact Hboard|].
    exists m. split.
    + intros k cmd' Hk Hcmd'. rewrite <- Hocc1. now apply Hbefore.
    + right. split; [cbn; now rewrite Hocc, Hocc1|]. split; [reflexivity|].
      exists cmd. split; [exact Hcmd|]. now rewrite <- Hocc1.
Qed.

(** X19. Whatever Nextcloud and the configuration are, and whether it
    returns or raises, [TrustedDomainsJob._run] leaves the job with an
    interval of 900 or of 15, never without one, and touches neither
    [last_run] nor the board. *)
Theorem trusted_domains_keeps_polling (config : Cfg) (kwargs : Kwargs) (w : World) :
  let r := td_run config kwargs w in
  (interval (self (w_ctx (snd r))) = Some 900 ∨ interval (self (w_ctx (snd r))) = Some 15)
  ∧ last_run (self (w_ctx (snd r))) = last_run (self (w_ctx w))
  ∧ board (env (w_ctx (snd r))) = board (env (w_ctx w)).
Proof.
  cbv zeta.
  destruct (path_exists can_install_path) eqn:Hex.
  { rewrite (td_run_not_installed _ _ _ Hex). cbn. auto. }
  destruct (runner (w_occ w) get_trusted_cmd) as [returncode output] eqn:Hrun.
  destruct (decide (returncode = 0)) as [->|Hne].
  2: { rewrite (td_run_get_failed _ _ _ _ _ Hex Hrun Hne). cbn. auto. }
  rewrite (td_run_get_ok _ _ _ _ Hex Hrun).
  destruct (drop_last_two output) as [|first others]; [cbn; auto|].
  destruct (config !! "config") as [section|] eqn:Hcfg.
  2: { unfold TrustedDomainsJob__write, first_item, getitem_cfgX. effx_simpl.
       rewrite Hcfg. cbn. auto. }
  rewrite (td_write_eval _ _ _ _ _ Hcfg).
  destruct (forallb _ _); [cbn; auto|].
  set (w1 := ran get_trusted_cmd (on_ctx (set_interval (Some 900)) w)).
  destruct (set_config_items_spec runner cr_log_output "trusted_domains"
              (wanted_entries first section) 0 w1)
    as (m & _ & Hself & Hboard & _).
  destruct (set_items "trusted_domains" 0 (wanted_entries first section) w1)
    as [[[]|e] w']; cbn [fst snd] in *.
  - rewrite Hself, Hboard. cbn. auto.
  - destruct (isinstance_NextcloudError e); cbn [snd].
    + split; [right; reflexivity|]. cbn. rewrite Hself, Hboard. auto.
    + rewrite Hself, Hboard. cbn. auto.
Qed.

End TrustedDomainsFacts.

(** ** The properties of [nextcloud.py] on examples *)

(** Three trusted proxies written, the third command failing. *)
Lemma set_config_list_stops_at_first_failure_witness :
  let items := [VStr "10.0.0.1"; VStr "10.0.0.2"; VStr "10.0.0.3"; VStr "10.0.0.4"] in
  let r := set_config (occ_fails_after 2) quiet "trusted_proxies" (Seq items) None
             (new_world None) in
  fst r = Err (NextcloudError msg_occ_failed)
  ∧ w_occ (snd r) = take 3 (set_item_cmds "trusted_proxies" 0 items).
Proof.
  intros items r.
  destruct (set_config_list_stops_at_first_failure (occ_fails_after 2) quiet
              "trusted_proxies" items (new_world None))
    as (m & _ & _ & _ & Hend).
  - apply elem_of_cons. right. apply elem_of_cons. now left.
  - fold r in Hend. destruct Hend as [(Hok & _)|(Herr & _)]; [discriminate Hok|].
    split; [exact Herr|reflexivity].
Defined.

(** [occ app:enable] answering that the app is already enabled. *)
Lemma enable_nextbox_app_reports_already_witness :
  let output := ["nextbox already enabled"; ""; ""] in
  enable_nextbox_app (occ_prints output) quiet (new_world (Some 5))
  = (Ok true, ran enable_cmd (new_world (Some 5))).
Proof.
  intros output.
  destruct (enable_nextbox_app_reports_already (occ_prints output) quiet
              (new_world (Some 5)) 0 output eq_refl) as (_ & _ & _ & Hok & _).
  exact (Hok eq_refl).
Defined.

(** The version line of [occ status]. *)
Lemma get_version_parts_witness :
  fst (get_version (occ_prints status_output) quiet (new_world None))
  = Ok (Some ["21"; "0"; "2"; "1"]).
Proof.
  destruct (get_version_parts (occ_prints status_output) quiet (new_world None)
              0 status_output eq_refl) as (_ & _ & Hok).
  destruct (Hok eq_refl) as (parts & before & tail & Hparts & _).
  reflexivity.
Defined.

(** The enable job on an installed Nextcloud whose app is enabled
    already: one command, and the interval goes from 5 to 3600. *)
Lemma enable_nextbox_app_job_cases_witness :
  let output := ["nextbox already enabled"; ""; ""] in
  let r := EnableNextBoxAppJob__run (occ_prints output) quiet (λ _, false) ∅ ∅
             (new_world (Some 5)) in
  fst r = Ok tt
  ∧ w_occ (snd r) = [enable_cmd]
  ∧ interval (self (w_ctx (snd r))) = Some 3600.
Proof.
  intros output r.
  destruct (enable_nextbox_app_job_cases (occ_prints output) quiet (λ _, false) ∅ ∅
              (new_world (Some 5)) 0 output eq_refl) as (Hret & _ & _ & _ & Hinst).
  destruct (Hinst eq_refl) as [Hocc Hint].
  split; [exact Hret|]. split; [exact Hocc|exact Hint].
Defined.

(** An installed Nextcloud whose [occ] prints two lines only. *)
Lemma trusted_domains_early_exits_witness :
  let r := TrustedDomainsJob__run (occ_prints ["localhost"; ""]) quiet (λ _, false)
             domain_config ∅ (new_world (Some 90)) in
  fst r = Err (IndexError "list index out of range")
  ∧ w_occ (snd r) = [get_trusted_cmd]
  ∧ interval (self (w_ctx (snd r))) = Some 900.
Proof.
  intros r.
  destruct (trusted_domains_early_exits (occ_prints ["localhost"; ""]) quiet (λ _, false)
              domain_config ∅ (new_world (Some 90)) 0 ["localhost"; ""] eq_refl)
    as (_ & _ & Hempty & _).
  exact (Hempty eq_refl eq_refl eq_refl).
Defined.

(** A Nextcloud that trusts "localhost" only: the seven wanted entries
    are written after the reading command. *)
Lemma trusted_domains_writes_missing_entries_witness :
  let r := TrustedDomainsJob__run (occ_prints_first ["localhost"; ""; ""]) quiet (λ _, false)
             domain_config ∅ (new_world (Some 90)) in
  let entries := wanted_entries "localhost" {[ "domain" := VStr "box.example.org" ]} in
  fst r = Ok None
  ∧ entries = [VStr "localhost"; VStr "192.168.*.*"; VStr "10.*.*.*"; VStr "172.16.*.*";
               VStr "172.18.*.*"; VStr "nextbox.local"; VStr "box.example.org"]
  ∧ w_occ (snd r) = get_trusted_cmd :: set_item_cmds "trusted_domains" 0 entries
  ∧ interval (self (w_ctx (snd r))) = Some 900.
Proof.
  intros r entries.
  destruct (trusted_domains_writes_missing_entries
              (occ_prints_first ["localhost"; ""; ""]) quiet (λ _, false)
              domain_config ∅ (new_world (Some 90)) ["localhost"; ""; ""] "localhost" []
              {[ "domain" := VStr "box.example.org" ]} eq_refl eq_refl eq_refl eq_refl)
    as (Hret & _ & _).
  split; [exact Hret|]. split; [reflexivity|]. split; reflexivity.
Defined.

(** * [SelfUpdateJob] *)

(** X20. [SelfUpdateJob._run] sets the interval to [None] and the LED
    to "updating" before anything else, so both hold however it ends.
    When updating the cache raises, or the configuration names no
    package, it raises with nothing started.  Otherwise it returns.
    It looks at the designated package, or at "nextbox" when the cache
    has no such package, and starts "nextbox-updater", once, exactly
    when that package is not installed or is upgradable.  The LED is
    set to "ready" at the end unless neither package was found: then
    it is left at "updating". *)
Theorem self_update_cases
    (apt_update : outcome unit) (apt_cache : Value → option Package)
    (config : Cfg) (kwargs : Kwargs) (s : Sys) :
  let r := SelfUpdateJob__run apt_update apt_cache config kwargs s in
  interval (self (s_ctx (snd r))) = None
  ∧ last_run (self (s_ctx (snd r))) = last_run (self (s_ctx s))
  ∧ board (env (s_ctx (snd r))) = board (env (s_ctx s))
  ∧ match apt_update,
          config !! "config" ≫= (λ section : PyDict, section !! "debian_package") with
    | Raised e, _ =>
        fst r = Raised e
        ∧ s_led (snd r) = (s_led s ++ ["updating"])%list
        ∧ s_started (snd r) = s_started s
    | Returned _, None =>
        (∃ k, fst r = Raised (KeyError k))
        ∧ s_led (snd r) = (s_led s ++ ["updating"])%list
        ∧ s_started (snd r) = s_started s
    | Returned _, Some pkg =>
        fst r = Returned tt
        ∧ match chosen_package apt_cache pkg with
          | None =>
              s_led (snd r) = (s_led s ++ ["updating"])%list
              ∧ s_started (snd r) = s_started s
          | Some pkg_obj =>
              s_led (snd r) = (s_led s ++ ["updating"; "ready"])%list
              ∧ s_started (snd r)
                = (s_started s
                   ++ if negb (pkg_is_installed pkg_obj) || pkg_is_upgradable pkg_obj
                      then ["nextbox-updater"] else [])%list
          end
    end.
Proof.
  cbv zeta.
  unfold SelfUpdateJob__run, getitem_cfg, getitem, external, chosen_package,
    set_led_state, services_start, sys_log.
  eff_simpl.
  destruct apt_update as [[]|e]; cbv beta iota; [|repeat split].
  destruct (config !! "config") as [section|]; cbn [mbind option_bind]; eff_simpl;
    [|repeat split; eauto].
  destruct (section !! "debian_package") as [pkg|]; eff_simpl; [|repeat split; eauto].
  destruct (apt_cache pkg) as [[inst upg]|]; eff_simpl.
  - destruct inst, upg; cbn [negb orb pkg_is_installed pkg_is_upgradable]; eff_simpl;
      cbn [s_ctx s_led s_started on_sctx];
      rewrite <- ?app_assoc, ?app_nil_r; repeat split.
  - destruct (apt_cache (VStr "nextbox")) as [[inst upg]|]; eff_simpl.
    + destruct inst, upg; cbn [negb orb pkg_is_installed pkg_is_upgradable]; eff_simpl;
        cbn [s_ctx s_led s_started on_sctx];
        rewrite <- ?app_assoc, ?app_nil_r; repeat split.
    + repeat split.
Qed.
